(** * go-dbx: row-to-record mapping and transaction scopes

    A shallow embedding of package [db] of uoul/go-dbx:
    - [Helper.go]: [parseDbResult] and [createFieldMap], the reflective
      column-to-field resolver and row materialiser;
    - [Query.go]: [Query] and [QueryAsync];
    - the transaction file: [ExecuteInTransaction] and
      [ExecuteInTransactionAsync];
    - the error file: [ErrInvalidDataType] and [NewErrInvalidDataType].

    What the package consumes from [reflect], [strings], [database/sql] and
    [go-async] is modelled in the first sections, as far as the package
    observes it. Field names and tags are ASCII strings; a cursor is the
    list of rows it will yield; the calls on collaborators are recorded in
    a trace. *)

From Stdlib Require Import Ascii String ZArith Lia.
From stdpp Require Import base option list strings gmap fin_maps.

Set Warnings "-register-all".

(* ===================================================================== *)
(** ** Go values the package passes around *)
(* ===================================================================== *)

(** Go's [error] interface, by the values this package can see. The
    package declares one error type of its own, [ErrInvalidDataType];
    everything else is made by a collaborator. [ErrScan] is the wrapper
    [database/sql] puts around a conversion failure in [Rows.Scan]
    ("sql: Scan error on column index %d, name %q: %w"), [ErrArity] its
    "expected %d destination arguments in Scan, not %d". *)
Inductive error : Type :=
| ErrInvalidDataType (Message : string)
| ErrDriver (msg : string)
| ErrScan (index : nat) (name : string) (cause : error)
| ErrArity (expected got : nat)
| ErrUser (msg : string).


(** The type assertion [_, ok := e.( *ErrInvalidDataType )] on the error value itself. *)
Definition isErrInvalidDataType (e : error) : bool :=
  match e with ErrInvalidDataType _ => true | _ => false end.

(** A call that returns a pointer and an [error], the pointer nil on
    failure. *)
Inductive result (A : Type) : Type :=
| Ok (a : A)
| Err (e : error).
Arguments Ok {A} a.
Arguments Err {A} e.

(** How control leaves a Go function: it returns, or it panics. *)
Inductive outcome (A : Type) : Type :=
| Return (a : A)
| Panic (msg : string).
Arguments Return {A} a.
Arguments Panic {A} msg.

(** A Go slice value: [None] is the nil slice, [Some l] a non-nil slice.
    Both have a length; only the second is distinguishable from the [nil]
    the error paths return. *)
Definition slice (A : Type) : Type := option (list A).

Definition slice_len {A} (s : slice A) : nat :=
  match s with None => 0 | Some l => length l end.

Definition slice_elems {A} (s : slice A) : list A :=
  match s with None => [] | Some l => l end.

(** [append(s, x)]: appending to the nil slice allocates. *)
Definition append {A} (s : slice A) (x : A) : slice A :=
  Some (slice_elems s ++ [x]).

(** [context.Context], as far as the package uses it: an opaque token that
    is handed on unchanged. *)
Definition Context : Type := nat.

(* ===================================================================== *)
(** ** [strings.ToLower] and exported names (ASCII)                       *)
(* ===================================================================== *)

Definition isUpper (c : ascii) : bool :=
  let n := nat_of_ascii c in (65 <=? n)%nat && (n <=? 90)%nat.

Definition toLowerAscii (c : ascii) : ascii :=
  if isUpper c then ascii_of_nat (nat_of_ascii c + 32) else c.

Fixpoint ToLower (s : string) : string :=
  match s with
  | EmptyString => EmptyString
  | String c rest => String (toLowerAscii c) (ToLower rest)
  end.

(** [reflect]'s rule for an exported field name: its first letter is upper
    case. *)
Definition IsExported (name : string) : bool :=
  match name with
  | EmptyString => false
  | String c _ => isUpper c
  end.

(* ===================================================================== *)
(** ** [reflect]: record shapes and addressable values                    *)
(* ===================================================================== *)

(** Kinds other than [reflect.Struct]. *)
Inductive Kind : Type :=
| KBool | KInt | KString | KInterface | KPtr | KSlice.

(** [reflect.StructField], as read by [createFieldMap]: [Name], the value
    of the [db] key of [Tag] (empty when the key is absent, as
    [Tag.Get] returns it) and [Anonymous]. *)
Record StructField : Type := mkField {
  Name : string;
  Tag : string;
  Anonymous : bool;
}.

Inductive GoType : Type :=
| TBasic (k : Kind)
| TStruct (fields : list (StructField * GoType)).

(** A named field, tagged or not, and an embedded one. *)
Definition field (name tag : string) (t : GoType) : StructField * GoType :=
  (mkField name tag false, t).
Definition embedded (name tag : string) (t : GoType) : StructField * GoType :=
  (mkField name tag true, t).

(** [field.CanSet()] for a field of an addressable struct that was itself
    reached through settable fields only, which is the only place
    [createFieldMap] asks: the field is settable when its name is
    exported. *)
Definition CanSet (f : StructField) : bool := IsExported (Name f).

(** Values [database/sql] hands to [Scan] ([driver.Value]). *)
Inductive DbValue : Type :=
| DNull
| DInt (z : Z)
| DBool (b : bool)
| DString (s : string)
| DBytes (s : string).

(** Go values of the basic kinds. [LBoxed] is an interface holding a
    driver value; [LNil] the nil interface, pointer or slice. *)
Inductive GoLeaf : Type :=
| LBool (b : bool)
| LInt (z : Z)
| LString (s : string)
| LNil
| LBoxed (d : DbValue).

Inductive Value : Type :=
| VBasic (x : GoLeaf)
| VStruct (fs : list Value).

Definition zeroLeaf (k : Kind) : GoLeaf :=
  match k with
  | KBool => LBool false
  | KInt => LInt 0
  | KString => LString ""
  | KInterface | KPtr | KSlice => LNil
  end.

(** [var item T]: the zero value of a type. *)
Fixpoint zeroValue (t : GoType) : Value :=
  match t with
  | TBasic k => VBasic (zeroLeaf k)
  | TStruct fields => VStruct (map (fun ft => zeroValue (snd ft)) fields)
  end.

(** [field.Addr().Interface()]: a typed pointer into [item], as the path of
    field indices from the root and the kind of the field it points to. *)
Record FieldPtr : Type := mkPtr {
  ptr_path : list nat;
  ptr_kind : Kind;
}.

(** [*p = x] for a pointer into [item]. The paths [createFieldMap] makes
    are in range by construction; out of range nothing is written. *)
Fixpoint store (path : list nat) (x : GoLeaf) (item : Value) : Value :=
  match path, item with
  | [], VBasic _ => VBasic x
  | i :: rest, VStruct fs =>
      VStruct (match fs !! i with
               | Some v => <[i := store rest x v]> fs
               | None => fs
               end)
  | _, _ => item
  end.

(** Reading a field back. *)
Fixpoint load (path : list nat) (item : Value) : option GoLeaf :=
  match path, item with
  | [], VBasic x => Some x
  | i :: rest, VStruct fs => fs !! i ≫= load rest
  | _, _ => None
  end.

(* ===================================================================== *)
(** ** Helper.go: [createFieldMap]                                        *)
(* ===================================================================== *)

(** [createFieldMap(val, columns, prefix)]. [val] is given by its type
    [typ] and its address [addr] inside the item. A nil Go map reads as
    the empty map and is modelled by it. [val.NumField()] panics unless
    [val] is a struct. The merge loops [for k, v := range nestedMap
    { fieldMap[k] = v }] are the union in which [nestedMap] wins. *)
Fixpoint createFieldMap (typ : GoType) (addr : list nat) (columns : list string)
    (prefix : string) {struct typ}
  : outcome (gmap string FieldPtr * option error) :=
  match typ with
  | TBasic _ =>
      Panic "reflect: call of reflect.Value.NumField on non-struct Value"
  | TStruct fields =>
      (fix loop (rest : list (StructField * GoType)) (i : nat)
           (fieldMap : gmap string FieldPtr) {struct rest}
         : outcome (gmap string FieldPtr * option error) :=
         match rest with
         | [] => Return (fieldMap, None)
         | (fieldType, ft) :: rest' =>
             let fieldTag := Tag fieldType in
             (* Skip unexported fields *)
             if negb (CanSet fieldType) then loop rest' (S i) fieldMap
             else
               match ft with
               | TStruct _ =>
                   if Anonymous fieldType then
                     (* Handle embedded structs *)
                     match createFieldMap ft (addr ++ [i]) columns prefix with
                     | Panic msg => Panic msg
                     | Return (_, Some err) => Return (∅, Some err)
                     | Return (nestedMap, None) =>
                         loop rest' (S i) (nestedMap ∪ fieldMap)
                     end
                   else
                     (* Handle non-embedded nested structs *)
                     let nestedPrefix := fieldTag in
                     let nestedPrefix :=
                       if decide (nestedPrefix = "")
                       then ToLower (Name fieldType) else nestedPrefix in
                     (* Add separator if there's already a prefix *)
                     let nestedPrefix :=
                       if decide (prefix = "") then nestedPrefix
                       else prefix +:+ "_" +:+ nestedPrefix in
                     match createFieldMap ft (addr ++ [i]) columns nestedPrefix with
                     | Panic msg => Panic msg
                     | Return (_, Some err) => Return (∅, Some err)
                     | Return (nestedMap, None) =>
                         loop rest' (S i) (nestedMap ∪ fieldMap)
                     end
               | TBasic k =>
                   (* Handle regular fields *)
                   let columnName := fieldTag in
                   let columnName :=
                     if decide (columnName = "")
                     then ToLower (Name fieldType) else columnName in
                   (* Add prefix if exists *)
                   let columnName :=
                     if decide (prefix = "") then columnName
                     else prefix +:+ "_" +:+ columnName in
                   loop rest' (S i) (<[columnName := mkPtr (addr ++ [i]) k]> fieldMap)
               end
         end) fields 0%nat ∅
  end.

(** The loop of [createFieldMap] over the remaining fields, from index [i]
    with the map built so far: the same body under a name, for the proofs
    ([createFieldMap_struct] below shows they are the same function). *)
Fixpoint fieldLoop (addr : list nat) (columns : list string) (prefix : string)
    (rest : list (StructField * GoType)) (i : nat)
    (fieldMap : gmap string FieldPtr) {struct rest}
  : outcome (gmap string FieldPtr * option error) :=
  match rest with
  | [] => Return (fieldMap, None)
  | (fieldType, ft) :: rest' =>
      let fieldTag := Tag fieldType in
      if negb (CanSet fieldType) then fieldLoop addr columns prefix rest' (S i) fieldMap
      else
        match ft with
        | TStruct _ =>
            if Anonymous fieldType then
              match createFieldMap ft (addr ++ [i]) columns prefix with
              | Panic msg => Panic msg
              | Return (_, Some err) => Return (∅, Some err)
              | Return (nestedMap, None) =>
                  fieldLoop addr columns prefix rest' (S i) (nestedMap ∪ fieldMap)
              end
            else
              let nestedPrefix := fieldTag in
              let nestedPrefix :=
                if decide (nestedPrefix = "")
                then ToLower (Name fieldType) else nestedPrefix in
              let nestedPrefix :=
                if decide (prefix = "") then nestedPrefix
                else prefix +:+ "_" +:+ nestedPrefix in
              match createFieldMap ft (addr ++ [i]) columns nestedPrefix with
              | Panic msg => Panic msg
              | Return (_, Some err) => Return (∅, Some err)
              | Return (nestedMap, None) =>
                  fieldLoop addr columns prefix rest' (S i) (nestedMap ∪ fieldMap)
              end
        | TBasic k =>
            let columnName := fieldTag in
            let columnName :=
              if decide (columnName = "")
              then ToLower (Name fieldType) else columnName in
            let columnName :=
              if decide (prefix = "") then columnName
              else prefix +:+ "_" +:+ columnName in
            fieldLoop addr columns prefix rest' (S i)
              (<[columnName := mkPtr (addr ++ [i]) k]> fieldMap)
        end
  end.

(* ===================================================================== *)
(** ** [database/sql]: the row cursor and [Rows.Scan]                     *)
(* ===================================================================== *)

(** [*sql.Rows] as the package observes it: what [Columns()] answers, the
    rows [Next()] yields one by one before it answers false, and what
    [Err()] answers after that. *)
Record Rows : Type := mkRows {
  Columns : result (list string);
  rows_data : list (list DbValue);
  rows_err : option error;
}.

(** A scan destination: a pointer to a field of [item], or the pointer to
    the local [dummy] of type [any]. *)
Inductive Dest : Type :=
| DField (p : FieldPtr)
| DDummy.

Section Scan.

(** The typed conversion of [database/sql] ([convertAssign]) into a
    destination of a given kind: the database layer's, taken as given. *)
Variable convertAssign : Kind -> DbValue -> result GoLeaf.

(** Into a destination of type [*any] the conversion stores the source
    as it is and cannot fail. *)
Definition convertAssignTo (k : Kind) (src : DbValue) : result GoLeaf :=
  match k with
  | KInterface =>
      Ok (match src with DNull => LNil | _ => LBoxed src end)
  | _ => convertAssign k src
  end.

(** The column loop of [Rows.Scan]: destination [i] receives value [i];
    the first failing conversion ends the scan. Fields written before
    it stay written. *)
Fixpoint scanColumns (columns : list string) (i : nat) (dest : list Dest)
    (vals : list DbValue) (item : Value) : Value * option error :=
  match dest, vals with
  | d :: dest', v :: vals' =>
      match d with
      | DDummy =>
          (* stored into [dummy], which nothing reads *)
          scanColumns columns (S i) dest' vals' item
      | DField p =>
          match convertAssignTo (ptr_kind p) v with
          | Err e => (item, Some (ErrScan i (default "" (columns !! i)) e))
          | Ok x => scanColumns columns (S i) dest' vals' (store (ptr_path p) x item)
          end
      end
  | _, _ => (item, None)
  end.

(** [rows.Scan(dest...)] on the current row. *)
Definition rowsScan (columns : list string) (dest : list Dest)
    (row : list DbValue) (item : Value) : Value * option error :=
  if decide (length dest = length row) then scanColumns columns 0 dest row item
  else (item, Some (ErrArity (length row) (length dest))).

(* =================================================================== *)
(** ** Helper.go: [parseDbResult]                                       *)
(* =================================================================== *)

(** [scanDest]: for each column the bound field, or the dummy. *)
Definition scanDestOf (fieldMap : gmap string FieldPtr) (columns : list string)
  : list Dest :=
  map (fun col => match fieldMap !! col with
                  | Some ptr => DField ptr
                  | None => DDummy
                  end) columns.

(** One turn of [for rows.Next() { ... }]: a fresh [item], its field
    map, the destinations and the scan. The result is the scanned item,
    or the error that ends [parseDbResult]. *)
Definition scanRow (T : GoType) (columns : list string) (row : list DbValue)
  : outcome (Value * option error) :=
  let item := zeroValue T in
  match createFieldMap T [] columns "" with
  | Panic msg => Panic msg
  | Return (_, Some err) => Return (item, Some err)
  | Return (fieldMap, None) =>
      let scanDest := scanDestOf fieldMap columns in
      Return (rowsScan columns scanDest row item)
  end.

Fixpoint parseRows (T : GoType) (columns : list string)
    (pending : list (list DbValue)) (terminal : option error)
    (result : slice Value) : outcome (slice Value * option error) :=
  match pending with
  | [] => Return (result, terminal)
  | row :: pending' =>
      match scanRow T columns row with
      | Panic msg => Panic msg
      | Return (_, Some err) => Return (None, Some err)
      | Return (item, None) =>
          parseRows T columns pending' terminal (append result item)
      end
  end.

(** [parseDbResult[T](rows)]. [var result []T] is the nil slice. *)
Definition parseDbResult (T : GoType) (rows : Rows)
  : outcome (slice Value * option error) :=
  match Columns rows with
  | Err err => Return (None, Some err)
  | Ok columns => parseRows T columns (rows_data rows) (rows_err rows) None
  end.

End Scan.

(* ===================================================================== *)
(** ** Calls on collaborators: world, trace and panics                    *)
(* ===================================================================== *)

(** The calls the package makes on its collaborators, in the order it
    makes them. *)
Inductive Event : Type :=
| EvQueryContext (query : string)
| EvClose
| EvBeginTx
| EvScopeFn (tx : nat)
| EvCommit (tx : nat)
| EvRollback (tx : nat).

Definition isCommit (e : Event) : bool :=
  match e with EvCommit _ => true | _ => false end.
Definition isRollback (e : Event) : bool :=
  match e with EvRollback _ => true | _ => false end.

(** How many calls of a trace are of a given sort. *)
Fixpoint countWhere (p : Event -> bool) (trace : list Event) : nat :=
  match trace with
  | [] => 0
  | e :: rest => (if p e then 1 else 0) + countWhere p rest
  end.

Definition commitCalls (trace : list Event) : nat := countWhere isCommit trace.
Definition rollbackCalls (trace : list Event) : nat := countWhere isRollback trace.

(** A computation of the package over the collaborators' state [W]: it
    ends by returning or panicking, in a new state, having made the calls
    of its trace. *)
Definition M (W A : Type) : Type := W -> outcome A * W * list Event.

#[global] Instance M_ret {W} : MRet (M W) :=
  fun A a w => (Return a, w, []).

#[global] Instance M_bind {W} : MBind (M W) :=
  fun A B k m w =>
    match m w with
    | (Return a, w', t) =>
        let '(o, w'', t') := k a w' in (o, w'', t ++ t')
    | (Panic msg, w', t) => (Panic msg, w', t)
    end.

(** A call on a collaborator that returns. *)
Definition call {W A} (ev : Event) (f : W -> A * W) : M W A :=
  fun w => let '(a, w') := f w in (Return a, w', [ev]).

(** A call on caller-supplied code, which may panic. *)
Definition callback {W A} (ev : Event) (f : W -> outcome A * W) : M W A :=
  fun w => let '(o, w') := f w in (o, w', [ev]).

(** A pure step of the package itself, which may panic. *)
Definition pure {W A} (o : outcome A) : M W A :=
  fun w => (o, w, []).

(** [defer cleanup(); body]: [cleanup] runs when [body] is left, by return
    or by panic; what it returns is dropped. *)
Definition defer {W A B} (cleanup : M W B) (body : M W A) : M W A :=
  fun w =>
    let '(o, w', t) := body w in
    let '(_, w'', t') := cleanup w' in
    (o, w'', t ++ t').

Definition outcome_of {W A} (r : outcome A * W * list Event) : outcome A := r.1.1.
Definition world_of {W A} (r : outcome A * W * list Event) : W := r.1.2.
Definition trace_of {W A} (r : outcome A * W * list Event) : list Event := r.2.

(* ===================================================================== *)
(** ** The capability interfaces                                          *)
(* ===================================================================== *)

(** [IDbSession]. *)
Record IDbSession (W : Type) : Type := mkSession {
  QueryContext : Context -> string -> list DbValue -> W -> result Rows * W;
}.
Arguments QueryContext {W} _ _ _ _ _.
Arguments mkSession {W} _.

(** [sql.TxOptions]. *)
Record TxOptions : Type := mkTxOptions {
  Isolation : nat;
  ReadOnly : bool;
}.

(** [*sql.Tx]: the handle of one transaction, with the two calls the
    orchestrator makes on it. *)
Record Tx (W : Type) : Type := mkTx {
  tx_id : nat;
  Commit : W -> option error * W;
  Rollback : W -> option error * W;
}.
Arguments tx_id {W} _.
Arguments Commit {W} _ _.
Arguments Rollback {W} _ _.
Arguments mkTx {W} _ _ _.

(** [IDbConnection]: an [IDbSession] that can begin a transaction. *)
Record IDbConnection (W : Type) : Type := mkConnection {
  session : IDbSession W;
  BeginTx : Context -> option TxOptions -> W -> result (Tx W) * W;
}.
Arguments session {W} _.
Arguments BeginTx {W} _ _ _ _.
Arguments mkConnection {W} _ _.

(** [TransactionScopeFunction[T]]. *)
Definition TransactionScopeFunction (W T : Type) : Type :=
  Context -> Tx W -> W -> outcome (T * option error) * W.

(** The background execution capability, [async.Do] of go-async, with the
    result it hands out. [resolved r w] lists what is delivered on the
    result [r] when the worker runs its unit of work from state [w]. *)
Class Async (W : Type) : Type := mkAsync {
  AsyncResult : Type -> Type;
  Do : forall V, Context -> (Context -> M W (V * option error)) -> AsyncResult V;
  resolved : forall V, AsyncResult V -> W -> list (V * option error);
}.
Arguments Do {W _ V} _ _.
Arguments resolved {W _ V} _ _.

(* ===================================================================== *)
(** ** Query.go                                                           *)
(* ===================================================================== *)

Section Query.

Context {W : Type}.
Variable convertAssign : Kind -> DbValue -> result GoLeaf.

(** [Query[T](ctx, conn, query, args...)]. *)
Definition Query (T : GoType) (ctx : Context) (conn : IDbSession W)
    (query : string) (args : list DbValue) : M W (slice Value * option error) :=
  r ← call (EvQueryContext query) (QueryContext conn ctx query args);
  match r with
  | Err err => mret (None, Some err)
  | Ok rows =>
      defer (call EvClose (fun w => (tt, w))) (
        '(result, err) ← pure (parseDbResult convertAssign T rows);
        match err with
        | Some err => mret (None, Some err)
        | None => mret (result, None)
        end)
  end.

(** [QueryAsync[T](ctx, conn, query, args...)]. *)
Definition QueryAsync `{Async W} (T : GoType) (ctx : Context)
    (conn : IDbSession W) (query : string) (args : list DbValue)
  : AsyncResult (slice Value) :=
  Do ctx (fun ctx => Query T ctx conn query args).

End Query.

(* ===================================================================== *)
(** ** The transaction file                                               *)
(* ===================================================================== *)

Section Transaction.

Context {W T : Type}.
(** [*new(T)], the zero value of the result type. *)
Variable zero : T.

(** [ExecuteInTransaction[T](ctx, db, tsf, opts...)]. *)
Definition ExecuteInTransaction (ctx : Context) (db : IDbConnection W)
    (tsf : TransactionScopeFunction W T) (opts : list TxOptions)
  : M W (T * option error) :=
  let txOpts := head opts in
  (* Create transaction *)
  r ← call EvBeginTx (BeginTx db ctx txOpts);
  match r with
  | Err err => mret (zero, Some err)
  | Ok tx =>
      defer (call (EvRollback (tx_id tx)) (Rollback tx)) (
        (* Execute TransactionScopeFunction *)
        '(r, err) ← callback (EvScopeFn (tx_id tx)) (tsf ctx tx);
        match err with
        | Some err => mret (zero, Some err)
        | None =>
            (* Commit changes *)
            cerr ← call (EvCommit (tx_id tx)) (Commit tx);
            match cerr with
            | Some err => mret (zero, Some err)
            | None => mret (r, None)
            end
        end)
  end.

(** [ExecuteInTransactionAsync[T](ctx, db, tsf, opts...)]. *)
Definition ExecuteInTransactionAsync `{Async W} (ctx : Context)
    (db : IDbConnection W) (tsf : TransactionScopeFunction W T)
    (opts : list TxOptions) : AsyncResult T :=
  Do ctx (fun ctx => ExecuteInTransaction ctx db tsf opts).

End Transaction.

(* ===================================================================== *)
(** ** The column-name resolution rule, as the specification words it     *)
(* ===================================================================== *)

(** The name a field resolves to: its mapping annotation, otherwise its
    lower-cased name. *)
Definition resolvedName (f : StructField) : string :=
  if decide (Tag f = "") then ToLower (Name f) else Tag f.

(** A name inside the namespace [prefix], with the separator. *)
Definition qualify (prefix name : string) : string :=
  prefix +:+ "_" +:+ name.

Definition qualifyAll (prefix : string) (l : list (string * FieldPtr))
  : list (string * FieldPtr) :=
  map (fun kp => (qualify prefix kp.1, kp.2)) l.

(** The bindings of a record shape in its own namespace, in field order:
    a leaf binds its resolved name; an embedded record merges its bindings
    with nothing added, whatever its annotation; a named nested record
    contributes its inner names behind [<resolved name>_]. Fields that are
    not settable take no part. *)
Fixpoint columnBindings (typ : GoType) (addr : list nat) {struct typ}
  : list (string * FieldPtr) :=
  match typ with
  | TBasic _ => []
  | TStruct fields =>
      (fix each (rest : list (StructField * GoType)) (i : nat) {struct rest}
         : list (string * FieldPtr) :=
         match rest with
         | [] => []
         | (f, ft) :: rest' =>
             (if CanSet f then
                match ft with
                | TBasic k => [(resolvedName f, mkPtr (addr ++ [i]) k)]
                | TStruct _ =>
                    if Anonymous f then columnBindings ft (addr ++ [i])
                    else qualifyAll (resolvedName f) (columnBindings ft (addr ++ [i]))
                end
              else []) ++ each rest' (S i)
         end) fields 0%nat
  end.

(** The same walk over the remaining fields, under a name. *)
Fixpoint fieldBindings (addr : list nat) (rest : list (StructField * GoType))
    (i : nat) {struct rest} : list (string * FieldPtr) :=
  match rest with
  | [] => []
  | (f, ft) :: rest' =>
      (if CanSet f then
         match ft with
         | TBasic k => [(resolvedName f, mkPtr (addr ++ [i]) k)]
         | TStruct _ =>
             if Anonymous f then columnBindings ft (addr ++ [i])
             else qualifyAll (resolvedName f) (columnBindings ft (addr ++ [i]))
         end
       else []) ++ fieldBindings addr rest' (S i)
  end.

(** The bindings seen from an enclosing namespace: unchanged at the top
    level, behind [<prefix>_] otherwise. *)
Definition withPrefix (prefix : string) (l : list (string * FieldPtr))
  : list (string * FieldPtr) :=
  if decide (prefix = "") then l else qualifyAll prefix l.

(** Bindings as a map; of two bindings of one name the later field's
    stands, as in a Go map written in field order. *)
Definition bindingsMap (l : list (string * FieldPtr)) : gmap string FieldPtr :=
  list_to_map (reverse l).

(* ===================================================================== *)
(** ** Sample shapes, cursors and collaborators                           *)
(* ===================================================================== *)

Module Samples.

(** A fragment of [convertAssign]: same-kind conversions only. *)
Definition convertAssignStd (k : Kind) (src : DbValue) : result GoLeaf :=
  match k, src with
  | KInt, DInt z => Ok (LInt z)
  | KString, DString s => Ok (LString s)
  | KString, DBytes s => Ok (LString s)
  | KBool, DBool b => Ok (LBool b)
  | _, _ => Err (ErrDriver "converting driver.Value type: unsupported Scan")
  end.

(** [struct { ID int `db:"id"`; Name string `db:"name"` }] *)
Definition User : GoType :=
  TStruct [ field "ID" "id" (TBasic KInt); field "Name" "name" (TBasic KString) ].

(** [struct { ID int `db:"id"`; Address struct{ Street string }
    `db:"address_"` }] *)
Definition UserWithAddress : GoType :=
  TStruct [ field "ID" "id" (TBasic KInt);
            field "Address" "address_"
              (TStruct [ field "Street" "" (TBasic KString) ]) ].

(** The shape of the README: [Address] has tagged fields and is nested
    under the tag [address_]. *)
Definition Address : GoType :=
  TStruct [ field "Street" "street" (TBasic KString);
            field "City" "city" (TBasic KString);
            field "State" "state" (TBasic KString) ].
Definition ReadmeUser : GoType :=
  TStruct [ field "ID" "id" (TBasic KInt);
            field "Name" "name" (TBasic KString);
            field "Address" "address_" Address ].

(** Three levels, an embedded record and an unexported field. *)
Definition Leafy : GoType := TStruct [ field "Leaf" "" (TBasic KInt) ].
Definition Base : GoType :=
  TStruct [ field "CreatedBy" "created_by" (TBasic KString);
            field "secret" "secret" (TBasic KString) ].
Definition Deep : GoType :=
  TStruct [ embedded "Base" "ignored" Base;
            field "Outer" "" (TStruct [ field "Inner" "" Leafy ]) ].

(** A cursor over one row [(1, "Main St")]. *)
Definition addressRows : Rows :=
  mkRows (Ok ["id"; "address_street"]) [[DInt 1; DString "Main St"]] None.

(** A session whose every query answers with the given cursor. *)
Definition sessionOf (rows : Rows) : IDbSession unit :=
  mkSession (fun _ _ _ w => (Ok rows, w)).

(** A session whose every query fails. *)
Definition brokenSession (e : error) : IDbSession unit :=
  mkSession (fun _ _ _ w => (Err e, w)).

End Samples.

(* ===================================================================== *)
(** ** Notions the statements below are written in                        *)
(* ===================================================================== *)

(** "Exactly one of commit and rollback is invoked, exactly once." *)
Definition exactlyOneTermination (trace : list Event) : bool :=
  ((commitCalls trace =? 1)%nat && (rollbackCalls trace =? 0)%nat)
  || ((commitCalls trace =? 0)%nat && (rollbackCalls trace =? 1)%nat).

(** What a caller can tell of a scan: the item, and whether an error came
    with it (the error of [Rows.Scan] names a column index). *)
Definition pairView (r : Value * option error) : Value * bool :=
  (r.1, bool_decide (r.2 = None)).

Definition scanView (r : outcome (Value * option error)) : outcome (Value * bool) :=
  match r with
  | Return r' => Return (pairView r')
  | Panic msg => Panic msg
  end.

(** The columns of a row that have a field binding, with their values. *)
Definition boundColumns (fieldMap : gmap string FieldPtr)
    (columns : list string) (row : list DbValue) : list (string * DbValue) :=
  filter (fun cv => is_Some (fieldMap !! cv.1)) (zip columns row).

(** [scanRow] succeeds on a row and leaves this item. *)
Definition scansTo (convertAssign : Kind -> DbValue -> result GoLeaf)
    (T : GoType) (columns : list string) (row : list DbValue) (item : Value)
  : Prop :=
  scanRow convertAssign T columns row = Return (item, None).

(** The error was returned by a call on the database layer made for this
    query: by [QueryContext], by [Columns], by [Scan] on one of the rows,
    or by [Err]. *)
Definition fromDatabaseLayer {W} (convertAssign : Kind -> DbValue -> result GoLeaf)
    (T : GoType) (ctx : Context) (conn : IDbSession W) (query : string)
    (args : list DbValue) (w : W) (e : error) : Prop :=
  match QueryContext conn ctx query args w with
  | (Err e', _) => e = e'
  | (Ok rows, _) =>
      Columns rows = Err e
      \/ rows_err rows = Some e
      \/ exists columns row,
           Columns rows = Ok columns /\ row ∈ rows_data rows
           /\ (rowsScan convertAssign columns
                 (scanDestOf (bindingsMap (columnBindings T [])) columns)
                 row (zeroValue T)).2 = Some e
  end.

(** The error was returned by [BeginTx], by the scope function, or by
    [Commit]. *)
Definition fromTransactionParties {W T} (ctx : Context) (db : IDbConnection W)
    (tsf : TransactionScopeFunction W T) (opts : list TxOptions) (w : W)
    (e : error) : Prop :=
  match BeginTx db ctx (head opts) w with
  | (Err e', _) => e = e'
  | (Ok tx, w1) =>
      match tsf ctx tx w1 with
      | (Return (_, Some e'), _) => e = e'
      | (Return (_, None), w2) => (Commit tx w2).1 = Some e
      | (Panic _, _) => False
      end
  end.

(** The contract of the background execution capability: a unit of work
    that returns resolves the result once, with what it returned. *)
Definition resolvesOnce {W} (A : Async W) : Prop :=
  forall V (ctx : Context) (f : Context -> M W (V * option error)) (w : W)
         (p : V * option error),
    outcome_of (f ctx w) = Return p -> resolved (Do ctx f) w = [p].

(** [QueryAsync] in the words of the specification: the result is resolved
    exactly once, with what [Query] would have produced. *)
Definition QueryAsync_spec {W} (convertAssign : Kind -> DbValue -> result GoLeaf)
    (T : GoType) (ctx : Context) (conn : IDbSession W) (query : string)
    (args : list DbValue) (w : W) : list (slice Value * option error) :=
  match outcome_of (Query convertAssign T ctx conn query args w) with
  | Return p => [p]
  | Panic _ => []
  end.

(** [ExecuteInTransactionAsync] in the words of the specification. *)
Definition ExecuteInTransactionAsync_spec {W T} (zero : T) (ctx : Context)
    (db : IDbConnection W) (tsf : TransactionScopeFunction W T)
    (opts : list TxOptions) (w : W) : list (T * option error) :=
  match outcome_of (ExecuteInTransaction zero ctx db tsf opts w) with
  | Return p => [p]
  | Panic _ => []
  end.

(* ===================================================================== *)
(** ** Sample databases, transactions and executors                       *)
(* ===================================================================== *)

Module TxSamples.

(** A database with committed writes, the writes of the open
    transaction, and the [done] flag of the handle of [database/sql]. *)
Record Db : Type := mkDb {
  committed : list string;
  pending : list string;
  tx_done : bool;
}.

Definition emptyDb : Db := mkDb [] [] false.

Definition ErrTxDone : error :=
  ErrDriver "sql: transaction has already been committed or rolled back".
Definition ErrCommit : error := ErrDriver "commit failed".
Definition ErrBegin : error := ErrDriver "connection refused".
Definition ErrBusiness : error := ErrUser "insufficient funds".

Definition commitDb (w : Db) : option error * Db :=
  if tx_done w then (Some ErrTxDone, w)
  else (None, mkDb (committed w ++ pending w) [] true).

Definition failingCommitDb (w : Db) : option error * Db :=
  if tx_done w then (Some ErrTxDone, w)
  else (Some ErrCommit, mkDb (committed w) (pending w) false).

Definition rollbackDb (w : Db) : option error * Db :=
  if tx_done w then (Some ErrTxDone, w)
  else (None, mkDb (committed w) [] true).

Definition goodTx : Tx Db := mkTx 7 commitDb rollbackDb.
Definition badCommitTx : Tx Db := mkTx 7 failingCommitDb rollbackDb.

Definition noSession : IDbSession Db :=
  mkSession (fun _ _ _ w => (Err (ErrDriver "no rows"), w)).

Definition goodDb : IDbConnection Db :=
  mkConnection noSession (fun _ _ w => (Ok goodTx, w)).
Definition badCommitDb : IDbConnection Db :=
  mkConnection noSession (fun _ _ w => (Ok badCommitTx, w)).
Definition downDb : IDbConnection Db :=
  mkConnection noSession (fun _ _ w => (Err ErrBegin, w)).

Definition write (s : string) (w : Db) : Db :=
  mkDb (committed w) (pending w ++ [s]) (tx_done w).

(** Scope functions: one that writes and succeeds, one that writes and
    then fails, one that writes and then panics. *)
Definition transfer : TransactionScopeFunction Db nat :=
  fun _ _ w => (Return (42, None), write "debit" w).
Definition overdraw : TransactionScopeFunction Db nat :=
  fun _ _ w => (Return (13, Some ErrBusiness), write "debit" w).
Definition crash : TransactionScopeFunction Db nat :=
  fun _ _ w => (Panic "index out of range", write "debit" w).

(** An executor that runs the unit of work where it stands and delivers
    what it returns. *)
Definition inlineAsync {W} : Async W :=
  mkAsync W
    (fun V => W -> list (V * option error))
    (fun V ctx f w =>
       match outcome_of (f ctx w) with
       | Return p => [p]
       | Panic _ => []
       end)
    (fun V r w => r w).

End TxSamples.

(* ===================================================================== *)
(** ** Further notions: closing, shadowing, reachable fields              *)
(* ===================================================================== *)



(** The binding of a name that stands last in a list of bindings. *)
Fixpoint lastBinding (name : string) (l : list (string * FieldPtr))
  : option FieldPtr :=
  match l with
  | [] => None
  | (k, p) :: rest =>
      match lastBinding name rest with
      | Some q => Some q
      | None => if decide (k = name) then Some p else None
      end
  end.

(** The kind of the field a path of field indices leads to, when every
    field on the path is settable and the last one is not a struct. *)
Fixpoint fieldAt (path : list nat) (t : GoType) {struct path} : option Kind :=
  match path, t with
  | [], TBasic k => Some k
  | i :: rest, TStruct fields =>
      match fields !! i with
      | Some (f, ft) => if CanSet f then fieldAt rest ft else None
      | None => None
      end
  | _, _ => None
  end.

(** The paths the bound columns of a row write to. *)
Definition writtenPaths (fieldMap : gmap string FieldPtr) (columns : list string)
  : list (list nat) :=
  omap (fun c => ptr_path <$> fieldMap !! c) columns.


Module ShadowSamples.

(** [struct { Base; ID int `db:"id"` }] and [struct { ID int `db:"id"`;
    Base }], with [Base = struct { ID int `db:"id"` }]: the same column
    name comes from the embedded record and from the record itself. *)
Definition Base : GoType := TStruct [ field "ID" "id" (TBasic KInt) ].
Definition OuterLast : GoType :=
  TStruct [ embedded "Base" "" Base; field "ID" "id" (TBasic KInt) ].
Definition EmbeddedLast : GoType :=
  TStruct [ field "ID" "id" (TBasic KInt); embedded "Base" "" Base ].

End ShadowSamples.

(* ===================================================================== *)
(** * Facts about the mapper                                              *)
(* ===================================================================== *)

(** Induction over record shapes, with the hypothesis for every field. *)
Lemma GoType_nested_ind (P : GoType -> Prop)
    (Hbasic : forall k, P (TBasic k))
    (Hstruct : forall fields, Forall (fun ft => P ft.2) fields -> P (TStruct fields)) :
  forall t, P t.
Proof.
  fix IH 1. intros [k | fields].
  - apply Hbasic.
  - apply Hstruct. induction fields as [| [f ft] rest IHrest].
    + constructor.
    + constructor; [apply IH | apply IHrest].
Qed.

Lemma createFieldMap_struct fields addr columns prefix :
  createFieldMap (TStruct fields) addr columns prefix
  = fieldLoop addr columns prefix fields 0 ∅.
Proof.
  simpl.
  match goal with |- ?loop fields 0%nat ∅ = _ =>
    enough (forall i fm, loop fields i fm = fieldLoop addr columns prefix fields i fm)
      as Hloop by apply Hloop
  end.
  induction fields as [| [f ft] rest IH]; intros i fm; simpl; [done |].
  destruct (negb (CanSet f)); [apply IH |].
  destruct ft as [k | inner]; [apply IH |].
  destruct (Anonymous f).
  - destruct (createFieldMap (TStruct inner) (addr ++ [i]) columns prefix)
      as [[m [e|]] | msg]; first [done | apply IH].
  - match goal with |- context [createFieldMap (TStruct inner) ?a ?c ?p] =>
      destruct (createFieldMap (TStruct inner) a c p) as [[m [e|]] | msg] end;
      first [done | apply IH].
Qed.

Lemma columnBindings_struct fields addr :
  columnBindings (TStruct fields) addr = fieldBindings addr fields 0.
Proof.
  simpl. generalize 0%nat.
  induction fields as [| [f ft] rest IH]; intros i; simpl; [done |].
  by rewrite IH.
Qed.

Lemma append_assoc (a b c : string) : (a +:+ b) +:+ c = a +:+ (b +:+ c).
Proof.
  induction a as [| ch a IH]; [done |].
  change (String ch ((a +:+ b) +:+ c) = String ch (a +:+ (b +:+ c))).
  by rewrite IH.
Qed.

Lemma append_nonempty_l (a b : string) : a ≠ "" -> a +:+ b ≠ "".
Proof. by destruct a. Qed.

Lemma ToLower_nonempty (s : string) : s ≠ "" -> ToLower s ≠ "".
Proof. by destruct s. Qed.

(** A settable field resolves to a name that is not empty: its name is
    exported, so it has a first letter. *)
Lemma resolvedName_nonempty (f : StructField) :
  CanSet f = true -> resolvedName f ≠ "".
Proof.
  unfold CanSet, resolvedName. intros Hset.
  destruct (decide (Tag f = "")) as [_ | Hne]; [| done].
  apply ToLower_nonempty. by destruct (Name f).
Qed.

Lemma qualifyAll_app p l1 l2 :
  qualifyAll p (l1 ++ l2) = qualifyAll p l1 ++ qualifyAll p l2.
Proof. apply map_app. Qed.

Lemma withPrefix_app p l1 l2 :
  withPrefix p (l1 ++ l2) = withPrefix p l1 ++ withPrefix p l2.
Proof. unfold withPrefix. destruct (decide (p = "")); [done | apply qualifyAll_app]. Qed.

Lemma qualifyAll_qualifyAll p r l :
  qualifyAll p (qualifyAll r l) = qualifyAll (p +:+ "_" +:+ r) l.
Proof.
  unfold qualifyAll. rewrite map_map. apply map_ext. intros [k v].
  unfold qualify. cbn [fst snd]. by rewrite !append_assoc.
Qed.

(** Threading a prefix down, as the code does, names the same columns as
    prepending it on the way up, as the rule is worded. *)
Lemma withPrefix_nested prefix r l :
  r ≠ "" ->
  withPrefix (if decide (prefix = "") then r else prefix +:+ "_" +:+ r) l
  = withPrefix prefix (qualifyAll r l).
Proof.
  intros Hr. unfold withPrefix at 2.
  destruct (decide (prefix = "")) as [-> | Hp].
  - unfold withPrefix. by destruct (decide (r = "")).
  - unfold withPrefix.
    destruct (decide (prefix +:+ "_" +:+ r = "")) as [Hbad | _].
    + by apply append_nonempty_l in Hbad.
    + by rewrite qualifyAll_qualifyAll.
Qed.

Lemma bindingsMap_app l1 l2 :
  bindingsMap (l1 ++ l2) = bindingsMap l2 ∪ bindingsMap l1.
Proof. unfold bindingsMap. by rewrite reverse_app, list_to_map_app. Qed.

Lemma bindingsMap_singleton k v : bindingsMap [(k, v)] = {[ k := v ]}.
Proof. unfold bindingsMap. simpl. by rewrite insert_empty. Qed.

Lemma fieldLoop_bindings addr columns :
  forall fields,
    Forall (fun ft => forall addr prefix,
              match ft.2 with
              | TBasic _ => True
              | TStruct _ =>
                  createFieldMap ft.2 addr columns prefix
                  = Return (bindingsMap (withPrefix prefix (columnBindings ft.2 addr)), None)
              end) fields ->
    forall prefix i fm,
      fieldLoop addr columns prefix fields i fm
      = Return (bindingsMap (withPrefix prefix (fieldBindings addr fields i)) ∪ fm, None).
Proof.
  induction 1 as [| [f ft] rest Hft _ IH]; intros prefix i fm.
  - simpl. unfold withPrefix, bindingsMap.
    destruct (decide (prefix = "")); simpl; by rewrite (left_id_L ∅ (∪)).
  - cbn [fieldLoop fieldBindings].
    destruct (CanSet f) eqn:Hset; cbn [negb].
    + rewrite withPrefix_app, bindingsMap_app, <- (assoc_L (∪)).
      destruct ft as [k | inner].
      * rewrite IH. do 2 f_equal. f_equal.
        rewrite insert_union_singleton_l. f_equal.
        unfold withPrefix, resolvedName.
        destruct (decide (prefix = "")); unfold qualifyAll; cbn [map fst snd];
          by rewrite bindingsMap_singleton.
      * destruct (Anonymous f).
        -- specialize (Hft (addr ++ [i]) prefix). cbn [snd] in Hft. rewrite Hft.
           by rewrite IH.
        -- fold (resolvedName f).
           pose proof (resolvedName_nonempty f Hset) as Hr.
           match goal with |- context [createFieldMap _ _ _ ?p] =>
             specialize (Hft (addr ++ [i]) p) end.
           cbn [snd] in Hft. rewrite Hft, IH.
           by rewrite withPrefix_nested.
    + by rewrite IH.
Qed.

Lemma createFieldMap_bindings columns :
  forall t addr prefix,
    match t with
    | TBasic _ => True
    | TStruct _ =>
        createFieldMap t addr columns prefix
        = Return (bindingsMap (withPrefix prefix (columnBindings t addr)), None)
    end.
Proof.
  induction t as [k | fields IH] using GoType_nested_ind; intros addr prefix; [done |].
  rewrite createFieldMap_struct, columnBindings_struct.
  rewrite (fieldLoop_bindings addr columns fields IH).
  by rewrite (right_id_L ∅ (∪)).
Qed.

Lemma createFieldMap_top fields columns :
  createFieldMap (TStruct fields) [] columns ""
  = Return (bindingsMap (columnBindings (TStruct fields) []), None).
Proof.
  pose proof (createFieldMap_bindings columns (TStruct fields) [] "") as H.
  cbn beta iota in H. rewrite H. unfold withPrefix. by destruct (decide ("" = "")).
Qed.

(** C4. For every record shape, address, column list and prefix,
    [createFieldMap] returns without error the bindings of the column-name
    resolution rule: the fields of an embedded record are merged into the
    current namespace with nothing added, whatever its tag; the inner names
    of a named nested record stand behind its resolved tag or lower-cased
    name and [_]; and an enclosing prefix is put in front with [_] again,
    so that prefixes compose ([outer_inner_leaf]). *)
Theorem createFieldMap_follows_resolution_rule
    (fields : list (StructField * GoType)) (addr : list nat)
    (columns : list string) (prefix : string) :
  createFieldMap (TStruct fields) addr columns prefix
  = Return (bindingsMap (withPrefix prefix (columnBindings (TStruct fields) addr)), None).
Proof. apply (createFieldMap_bindings columns (TStruct fields)). Qed.

(** The rule on a shape with an embedded record that carries a tag, an
    unexported field and two levels of named nesting. *)
Example deep_shape_columns :
  columnBindings Samples.Deep []
  = [ ("created_by", mkPtr [0; 0] KString);
      ("outer_inner_leaf", mkPtr [1; 0; 0] KInt) ].
Proof. reflexivity. Qed.

Example deep_shape_under_prefix :
  withPrefix "p" (columnBindings Samples.Deep [])
  = [ ("p_created_by", mkPtr [0; 0] KString);
      ("p_outer_inner_leaf", mkPtr [1; 0; 0] KInt) ].
Proof. reflexivity. Qed.

(* ===================================================================== *)
(** * Facts about scanning and [parseDbResult]                            *)
(* ===================================================================== *)

Section ScanFacts.

Variable convertAssign : Kind -> DbValue -> result GoLeaf.

Lemma scanDestOf_length fm columns : length (scanDestOf fm columns) = length columns.
Proof. unfold scanDestOf. by rewrite length_map. Qed.

(** Scanning a row and scanning its bound columns alone leave the same
    item and agree on success. *)
Lemma scanColumns_bound fm cols1 cols2 :
  forall columns row i j item,
    length row = length columns ->
    pairView (scanColumns convertAssign cols1 i (scanDestOf fm columns) row item)
    = pairView (scanColumns convertAssign cols2 j
                  (scanDestOf fm (boundColumns fm columns row).*1)
                  (boundColumns fm columns row).*2 item).
Proof.
  induction columns as [| c cs IH]; intros [| v vs] i j item Hlen; try done.
  simpl in Hlen. injection Hlen as Hlen.
  unfold boundColumns. cbn [zip zip_with scanDestOf map scanColumns].
  rewrite filter_cons. cbn [fst].
  destruct (fm !! c) as [p |] eqn:Hc.
  - rewrite decide_True by eauto.
    cbn [fmap list_fmap fst snd scanDestOf map scanColumns]. rewrite ?Hc.
    destruct (convertAssignTo convertAssign (ptr_kind p) v) as [x | e]; [| done].
    apply IH, Hlen.
  - rewrite decide_False by (by intros [? ?]).
    apply IH, Hlen.
Qed.

Lemma boundColumns_lengths fm columns row :
  length (scanDestOf fm (boundColumns fm columns row).*1)
  = length (boundColumns fm columns row).*2.
Proof. by rewrite scanDestOf_length, !length_fmap. Qed.

Lemma rowsScan_bound fm cols1 cols2 columns row item :
  length row = length columns ->
  pairView (rowsScan convertAssign cols1 (scanDestOf fm columns) row item)
  = pairView (rowsScan convertAssign cols2
                (scanDestOf fm (boundColumns fm columns row).*1)
                (boundColumns fm columns row).*2 item).
Proof.
  intros Hlen. unfold rowsScan.
  rewrite decide_True by (by rewrite scanDestOf_length).
  rewrite decide_True by apply boundColumns_lengths.
  by apply scanColumns_bound.
Qed.

(** A failing conversion names a column that has a binding. *)
Lemma scanColumns_error fm columns :
  forall cs row i item item' e,
    (forall n c, cs !! n = Some c -> columns !! (i + n) = Some c) ->
    scanColumns convertAssign columns i (scanDestOf fm cs) row item = (item', Some e) ->
    exists n name cause,
      e = ErrScan n name cause /\ columns !! n = Some name /\ is_Some (fm !! name).
Proof.
  induction cs as [| c cs IH]; intros [| v vs] i item item' e Hcols Hscan; try done.
  cbn [scanDestOf map scanColumns] in Hscan.
  assert (Hrest : forall n c', cs !! n = Some c' -> columns !! (S i + n) = Some c').
  { intros n c' Hn. specialize (Hcols (S n) c' Hn).
    by replace (S i + n) with (i + S n) by lia. }
  destruct (fm !! c) as [p |] eqn:Hc.
  - destruct (convertAssignTo convertAssign (ptr_kind p) v) as [x | cause].
    + by eapply (IH vs (S i)).
    + pose proof (Hcols 0 c eq_refl) as Hi. rewrite Nat.add_0_r in Hi.
      rewrite Hi in Hscan. cbn [default] in Hscan. simplify_eq.
      exists i, c, cause. rewrite Hc. eauto.
  - by eapply (IH vs (S i)).
Qed.

(** The errors [Rows.Scan] makes are its own: the wrapper around a failed
    conversion, or the count of destinations. *)
Lemma scanColumns_error_shape columns :
  forall dest row i item item' e,
    scanColumns convertAssign columns i dest row item = (item', Some e) ->
    exists n name cause, e = ErrScan n name cause.
Proof.
  induction dest as [| d dest IH]; intros [| v vs] i item item' e Hscan; try done.
  cbn [scanColumns] in Hscan. destruct d as [p |]; [| by eapply IH].
  destruct (convertAssignTo convertAssign (ptr_kind p) v) as [x | cause];
    [by eapply IH |].
  simplify_eq. by eexists _, _, _.
Qed.

Lemma rowsScan_error_not_mapping columns dest row item e :
  (rowsScan convertAssign columns dest row item).2 = Some e ->
  isErrInvalidDataType e = false.
Proof.
  unfold rowsScan. destruct (decide (length dest = length row)) as [_ | _].
  - destruct (scanColumns convertAssign columns 0 dest row item) as [item' err] eqn:Hscan.
    cbn. intros ->.
    by destruct (scanColumns_error_shape _ _ _ _ _ _ _ Hscan) as (n & name & cause & ->).
  - cbn. intros Herr. by simplify_eq.
Qed.

Lemma scanRow_struct fields columns row :
  scanRow convertAssign (TStruct fields) columns row
  = Return (rowsScan convertAssign columns
              (scanDestOf (bindingsMap (columnBindings (TStruct fields) [])) columns)
              row (zeroValue (TStruct fields))).
Proof. unfold scanRow. by rewrite createFieldMap_top. Qed.

(** A scan that returns an error returns the error of [Rows.Scan] on the
    destinations the mapper built. *)
Lemma scanRow_error T columns row item e :
  scanRow convertAssign T columns row = Return (item, Some e) ->
  (rowsScan convertAssign columns
     (scanDestOf (bindingsMap (columnBindings T [])) columns)
     row (zeroValue T)).2 = Some e.
Proof.
  destruct T as [k | fields]; [done |].
  rewrite scanRow_struct. intros Hrun.
  change (Some e) with
    (match Return (item, Some e) with Return r => r.2 | Panic _ => None end).
  by rewrite <- Hrun.
Qed.

Lemma parseRows_all_scanned T columns pending items terminal :
  Forall2 (scansTo convertAssign T columns) pending items ->
  forall acc,
    parseRows convertAssign T columns pending terminal acc
    = Return (match pending with
              | [] => acc
              | _ :: _ => Some (slice_elems acc ++ items)
              end, terminal).
Proof.
  induction 1 as [| row item rest items' Hrow Hrest IH]; intros acc; [done |].
  cbn [parseRows]. unfold scansTo in Hrow. rewrite Hrow, IH.
  unfold append. cbn [slice_elems].
  destruct Hrest; [done |]. by rewrite <- (assoc_L (++)).
Qed.

Lemma parseRows_returns T columns pending terminal acc res err :
  parseRows convertAssign T columns pending terminal acc = Return (res, err) ->
  (exists items,
      Forall2 (scansTo convertAssign T columns) pending items
      /\ err = terminal
      /\ res = match pending with
               | [] => acc
               | _ :: _ => Some (slice_elems acc ++ items)
               end)
  \/ (res = None
      /\ exists row item e,
           row ∈ pending
           /\ scanRow convertAssign T columns row = Return (item, Some e)
           /\ err = Some e).
Proof.
  revert acc. induction pending as [| row rest IH]; intros acc Hrun.
  - left. exists []. simpl in Hrun. by simplify_eq.
  - cbn [parseRows] in Hrun.
    destruct (scanRow convertAssign T columns row) as [[item [e |]] | msg] eqn:Hrow;
      [| | done].
    + right. simplify_eq. split; [done |]. exists row, item, e.
      split; [apply list_elem_of_here | done].
    + destruct (IH _ Hrun)
        as [(items & Hall & -> & ->) | (-> & row' & item' & e & Hin & Hscan & ->)].
      * left. exists (item :: items). split; [by constructor |]. split; [done |].
        unfold append. cbn [slice_elems].
        destruct Hall; [done |]. by rewrite <- (assoc_L (++)).
      * right. split; [done |]. exists row', item', e.
        split; [by apply list_elem_of_further | done].
Qed.

(** On a record shape the row loop returns; it never panics. *)
Lemma parseRows_struct_returns fields columns terminal :
  forall pending acc,
    exists res err,
      parseRows convertAssign (TStruct fields) columns pending terminal acc
      = Return (res, err).
Proof.
  induction pending as [| row rest IH]; intros acc; [by eexists _, _ |].
  cbn [parseRows]. rewrite scanRow_struct.
  destruct (rowsScan _ _ _ _ _) as [item [e |]]; [by eexists _, _ | apply IH].
Qed.

Section WithSession.

Context {W : Type}.

Lemma Query_unfold (T : GoType) ctx (conn : IDbSession W) query args w :
  Query convertAssign T ctx conn query args w
  = match QueryContext conn ctx query args w with
    | (Err e, w1) => (Return (None, Some e), w1, [EvQueryContext query])
    | (Ok rows, w1) =>
        (match parseDbResult convertAssign T rows with
         | Panic msg => Panic msg
         | Return (_, Some e) => Return (None, Some e)
         | Return (res, None) => Return (res, None)
         end, w1, [EvQueryContext query; EvClose])
    end.
Proof.
  unfold Query, mbind, M_bind, call, defer, pure, mret, M_ret.
  destruct (QueryContext conn ctx query args w) as [[rows | e] w1]; [| done].
  destruct (parseDbResult convertAssign T rows) as [[res [e |]] | msg]; done.
Qed.

(** An error of [Query] comes with the nil slice. *)
Lemma Query_error_nil (T : GoType) ctx (conn : IDbSession W) query args w res e :
  outcome_of (Query convertAssign T ctx conn query args w) = Return (res, Some e) ->
  res = None.
Proof.
  rewrite Query_unfold.
  destruct (QueryContext conn ctx query args w) as [[rows | e'] w1]; cbn.
  - destruct (parseDbResult convertAssign T rows) as [[res' [e' |]] | msg];
      intros Hrun; by simplify_eq.
  - intros Hrun. by simplify_eq.
Qed.

(** An error of [Query] is one the database layer returned. *)
Lemma Query_error_origin (T : GoType) ctx (conn : IDbSession W) query args w res e :
  outcome_of (Query convertAssign T ctx conn query args w) = Return (res, Some e) ->
  fromDatabaseLayer convertAssign T ctx conn query args w e.
Proof.
  rewrite Query_unfold. unfold fromDatabaseLayer.
  destruct (QueryContext conn ctx query args w) as [[rows | e'] w1]; cbn.
  - unfold parseDbResult.
    destruct (Columns rows) as [columns | e'] eqn:Hcols.
    + destruct (parseRows _ _ _ _ _ _) as [[res' [e' |]] | msg] eqn:Hrows;
        intros Hrun; simplify_eq.
      apply parseRows_returns in Hrows
        as [(items & _ & Hterm & _) | (_ & row & item & e0 & Hin & Hscan & He)].
      * right. left. done.
      * right. right. simplify_eq. exists columns, row.
        split; [done |]. split; [done |]. by eapply scanRow_error.
    + intros Hrun. simplify_eq. by left.
  - intros Hrun. by simplify_eq.
Qed.

End WithSession.

End ScanFacts.

Lemma scanColumns_dummies convertAssign columns :
  forall (dest : list Dest) row i item,
    Forall (fun d => d = DDummy) dest ->
    scanColumns convertAssign columns i dest row item = (item, None).
Proof.
  induction dest as [| d dest IH]; intros [| v vs] i item Hall; try done.
  inversion Hall as [| ? ? -> Hrest]; subst. cbn [scanColumns]. by apply IH.
Qed.

Lemma scanDestOf_unbound fm columns :
  Forall (fun c => fm !! c = None) columns ->
  Forall (fun d => d = DDummy) (scanDestOf fm columns).
Proof.
  induction 1 as [| c cs Hc _ IH]; [constructor |].
  cbn [scanDestOf map]. rewrite Hc. by constructor.
Qed.

(* ===================================================================== *)
(** * The mapper and [Query]: the claims                                  *)
(* ===================================================================== *)

(** C2, as the code has it. Whenever [Query] returns an error, the
    collection it returns is the nil slice: no partial result reaches the
    caller. The row mapper [parseDbResult] returns the nil slice with an
    error of [Columns] or of a failed [Scan]; with the cursor's terminal
    error it returns the records accumulated so far, one per row, and
    [Query] drops them. *)
Theorem Query_error_has_no_results :
  (forall W convertAssign T ctx (conn : IDbSession W) query args w res e,
      outcome_of (Query convertAssign T ctx conn query args w) = Return (res, Some e) ->
      res = None)
  /\ (forall convertAssign T rows res e,
        parseDbResult convertAssign T rows = Return (res, Some e) ->
        res = None
        \/ (rows_err rows = Some e
            /\ rows_data rows ≠ []
            /\ exists columns items,
                 Columns rows = Ok columns
                 /\ Forall2 (scansTo convertAssign T columns) (rows_data rows) items
                 /\ res = Some items)).
Proof.
  split.
  - intros W convertAssign T ctx conn query args w res e. apply Query_error_nil.
  - intros convertAssign T rows res e. unfold parseDbResult.
    destruct (Columns rows) as [columns | e'] eqn:Hcols.
    + intros Hrun.
      apply parseRows_returns in Hrun
        as [(items & Hall & Hterm & Hres) | (-> & _)]; [| by left].
      destruct (rows_data rows) as [| row rest] eqn:Hdata; [by left |].
      right. split; [done |]. split; [done |].
      exists columns, items. by rewrite Hres.
    + intros Hrun. simplify_eq. by left.
Qed.

(** [Query] on a session that fails to answer returns the nil slice. *)
Lemma Query_error_has_no_results_witness :
  outcome_of (Query Samples.convertAssignStd Samples.User 0
                (Samples.brokenSession (ErrDriver "syntax error")) "SELECT" [] tt)
  = Return (None, Some (ErrDriver "syntax error"))
  /\ (None : slice Value) = None.
Proof.
  split; [reflexivity |].
  exact (proj1 Query_error_has_no_results unit Samples.convertAssignStd Samples.User 0
           (Samples.brokenSession (ErrDriver "syntax error")) "SELECT" [] tt
           None (ErrDriver "syntax error") eq_refl).
Defined.

(** C2, as stated, fails for the row mapper: on a cursor that yields one
    row and then reports a terminal error, [parseDbResult] returns the
    error together with the record of the row it scanned. *)
Lemma parseDbResult_returns_rows_with_terminal_error :
  parseDbResult Samples.convertAssignStd Samples.User
    (mkRows (Ok ["id"; "name"]) [[DInt 1; DString "a"]]
            (Some (ErrDriver "connection reset")))
  = Return (Some [VStruct [VBasic (LInt 1); VBasic (LString "a")]],
            Some (ErrDriver "connection reset")).
Proof. vm_compute. reflexivity. Qed.

(** C3, on the code. With the nested field tagged [address_], the inner
    column is bound as [address__street]; the column [address_street] of
    the cursor has no binding, its value is dropped and [Street] keeps its
    zero value. The shape of the README resolves the same way. *)
Theorem nested_tag_with_separator_misses_column :
  columnBindings Samples.UserWithAddress []
  = [ ("id", mkPtr [0] KInt); ("address__street", mkPtr [1; 0] KString) ]
  /\ outcome_of (Query Samples.convertAssignStd Samples.UserWithAddress 0
                   (Samples.sessionOf Samples.addressRows) "SELECT" [] tt)
     = Return (Some [VStruct [VBasic (LInt 1); VStruct [VBasic (LString "")]]], None)
  /\ load [1; 0] (VStruct [VBasic (LInt 1); VStruct [VBasic (LString "")]])
     = Some (LString "")
  /\ (columnBindings Samples.ReadmeUser []).*1
     = ["id"; "name"; "address__street"; "address__city"; "address__state"].
Proof. repeat split; vm_compute; reflexivity. Qed.

(** With the tag [address], without the separator, the same column binds. *)
Example nested_tag_without_separator_binds_column :
  outcome_of (Query Samples.convertAssignStd
                (TStruct [ field "ID" "id" (TBasic KInt);
                           field "Address" "address"
                             (TStruct [ field "Street" "" (TBasic KString) ]) ])
                0 (Samples.sessionOf Samples.addressRows) "SELECT" [] tt)
  = Return (Some [VStruct [VBasic (LInt 1); VStruct [VBasic (LString "Main St")]]],
            None).
Proof. vm_compute. reflexivity. Qed.

(** C5. For every record shape and every row that has one value per
    column: a column without a binding is scanned into the dummy. The
    scan leaves the item, and succeeds or fails, exactly as the scan of the
    bound columns alone; an error it returns names a bound column; and if
    no column is bound it succeeds and leaves the zero item. *)
Theorem unmapped_columns_are_discarded
    (convertAssign : Kind -> DbValue -> result GoLeaf)
    (fields : list (StructField * GoType)) (columns : list string)
    (row : list DbValue) :
  length row = length columns ->
  exists fieldMap,
    createFieldMap (TStruct fields) [] columns "" = Return (fieldMap, None)
    /\ scanDestOf fieldMap columns
       = map (fun c => match fieldMap !! c with
                       | Some p => DField p
                       | None => DDummy
                       end) columns
    /\ scanView (scanRow convertAssign (TStruct fields) columns row)
       = scanView (scanRow convertAssign (TStruct fields)
                     (boundColumns fieldMap columns row).*1
                     (boundColumns fieldMap columns row).*2)
    /\ (forall item e,
          scanRow convertAssign (TStruct fields) columns row = Return (item, Some e) ->
          exists n name cause,
            e = ErrScan n name cause /\ columns !! n = Some name
            /\ is_Some (fieldMap !! name))
    /\ (Forall (fun c => fieldMap !! c = None) columns ->
        scanRow convertAssign (TStruct fields) columns row
        = Return (zeroValue (TStruct fields), None)).
Proof.
  intros Hlen.
  exists (bindingsMap (columnBindings (TStruct fields) [])).
  split; [apply createFieldMap_top |]. split; [done |].
  rewrite !scanRow_struct. cbn [scanView].
  split; [f_equal; by apply rowsScan_bound |].
  split.
  - intros item e Hrun. injection Hrun as Hrun. unfold rowsScan in Hrun.
    rewrite decide_True in Hrun by (by rewrite scanDestOf_length).
    eapply (scanColumns_error convertAssign _ columns columns row 0); [| exact Hrun].
    by intros n c Hn.
  - intros Hnone. f_equal. unfold rowsScan.
    rewrite decide_True by (by rewrite scanDestOf_length).
    apply scanColumns_dummies. by apply scanDestOf_unbound.
Qed.

(** A row with a column [legacy] that [User] has no field for. *)
Lemma unmapped_columns_are_discarded_witness :
  length [DInt 1; DString "x"; DString "a"] = length ["id"; "legacy"; "name"]
  /\ exists fieldMap,
       createFieldMap Samples.User [] ["id"; "legacy"; "name"] "" = Return (fieldMap, None)
       /\ scanView (scanRow Samples.convertAssignStd Samples.User
                      ["id"; "legacy"; "name"] [DInt 1; DString "x"; DString "a"])
          = scanView (scanRow Samples.convertAssignStd Samples.User
                        (boundColumns fieldMap ["id"; "legacy"; "name"]
                           [DInt 1; DString "x"; DString "a"]).*1
                        (boundColumns fieldMap ["id"; "legacy"; "name"]
                           [DInt 1; DString "x"; DString "a"]).*2).
Proof.
  split; [reflexivity |].
  destruct (unmapped_columns_are_discarded Samples.convertAssignStd
              [ field "ID" "id" (TBasic KInt); field "Name" "name" (TBasic KString) ]
              ["id"; "legacy"; "name"] [DInt 1; DString "x"; DString "a"] eq_refl)
    as (fieldMap & Hmap & _ & Hview & _).
  exists fieldMap. split; [exact Hmap | exact Hview].
Defined.

Example unmapped_column_value_is_dropped :
  scanRow Samples.convertAssignStd Samples.User
    ["id"; "legacy"; "name"] [DInt 1; DString "x"; DString "a"]
  = Return (VStruct [VBasic (LInt 1); VBasic (LString "a")], None).
Proof. vm_compute. reflexivity. Qed.

(** C7, as the code has it. On a cursor the session hands out: if every
    row scans and no terminal error is set, [Query] returns without error
    one record per row yielded, in cursor order, so the length of the
    collection is the number of rows; with no row the collection is the nil
    slice. Conversely a collection returned without error has that form,
    and a collection returned with an error is the nil slice, of length 0,
    however many rows were scanned before. *)
Theorem Query_result_length {W : Type}
    (convertAssign : Kind -> DbValue -> result GoLeaf) (T : GoType)
    (ctx : Context) (conn : IDbSession W) (query : string)
    (args : list DbValue) (w w1 : W) (rows : Rows) :
  QueryContext conn ctx query args w = (Ok rows, w1) ->
  (forall columns items,
      Columns rows = Ok columns ->
      Forall2 (scansTo convertAssign T columns) (rows_data rows) items ->
      rows_err rows = None ->
      exists res,
        outcome_of (Query convertAssign T ctx conn query args w) = Return (res, None)
        /\ slice_elems res = items
        /\ slice_len res = length (rows_data rows)
        /\ (rows_data rows = [] -> res = None))
  /\ (forall res err,
        outcome_of (Query convertAssign T ctx conn query args w) = Return (res, err) ->
        match err with
        | None =>
            slice_len res = length (rows_data rows)
            /\ (rows_data rows = [] <-> res = None)
            /\ exists columns,
                 Columns rows = Ok columns
                 /\ Forall2 (scansTo convertAssign T columns)
                      (rows_data rows) (slice_elems res)
        | Some _ => res = None /\ slice_len res = 0
        end).
Proof.
  intros Hconn. split.
  - intros columns items Hcols Hall Hterm.
    rewrite Query_unfold, Hconn. unfold parseDbResult. rewrite Hcols.
    rewrite (parseRows_all_scanned _ _ _ _ _ _ Hall), Hterm. cbn.
    pose proof (Forall2_length _ _ _ Hall) as Hlen.
    destruct (rows_data rows) as [| row rest].
    + exists None. by inversion Hall.
    + exists (Some items). cbn. by rewrite <- Hlen.
  - intros res err. rewrite Query_unfold, Hconn. cbn.
    destruct (parseDbResult convertAssign T rows) as [[res' [e |]] | msg] eqn:Hparse;
      intros Hrun; simplify_eq; [done |].
    unfold parseDbResult in Hparse.
    destruct (Columns rows) as [columns | e'] eqn:Hcols; [| done].
    apply parseRows_returns in Hparse
      as [(items & Hall & Hterm & Hres) | (_ & row & item & e & _ & _ & He)]; [| done].
    pose proof (Forall2_length _ _ _ Hall) as Hlen.
    destruct (rows_data rows) as [| row rest] eqn:Hdata.
    + subst res. inversion Hall; subst.
      split; [done |]. split; [done |]. exists columns. by split.
    + subst res. cbn in *. split; [lia |]. split; [done |].
      exists columns. by split.
Qed.

(** The two-row scenario of the specification. *)
Lemma Query_result_length_witness :
  QueryContext
    (Samples.sessionOf
       (mkRows (Ok ["id"; "name"])
          [[DInt 1; DString "a"]; [DInt 2; DString "b"]] None))
    0 "SELECT" [] tt
  = (Ok (mkRows (Ok ["id"; "name"])
           [[DInt 1; DString "a"]; [DInt 2; DString "b"]] None), tt)
  /\ exists res,
       outcome_of (Query Samples.convertAssignStd Samples.User 0
                     (Samples.sessionOf
                        (mkRows (Ok ["id"; "name"])
                           [[DInt 1; DString "a"]; [DInt 2; DString "b"]] None))
                     "SELECT" [] tt)
       = Return (res, None)
       /\ slice_elems res
          = [ VStruct [VBasic (LInt 1); VBasic (LString "a")];
              VStruct [VBasic (LInt 2); VBasic (LString "b")] ]
       /\ slice_len res = 2.
Proof.
  split; [reflexivity |].
  destruct (proj1 (Query_result_length Samples.convertAssignStd Samples.User 0
                     (Samples.sessionOf
                        (mkRows (Ok ["id"; "name"])
                           [[DInt 1; DString "a"]; [DInt 2; DString "b"]] None))
                     "SELECT" [] tt tt _ eq_refl)
              ["id"; "name"]
              [ VStruct [VBasic (LInt 1); VBasic (LString "a")];
                VStruct [VBasic (LInt 2); VBasic (LString "b")] ]
              eq_refl
              ltac:(repeat constructor; vm_compute; reflexivity)
              eq_refl)
    as (res & Hrun & Helems & Hlen & _).
  exists res. split; [exact Hrun |]. split; [exact Helems | exact Hlen].
Defined.

(** C7, as stated, fails twice. With no row the collection is the nil
    slice, the value the error paths return, not a non-nil empty slice;
    and when the second row fails to scan the collection is nil, of length
    0, though one row was scanned before the failure. *)
Lemma Query_without_rows_returns_nil_slice :
  outcome_of (Query Samples.convertAssignStd Samples.User 0
                (Samples.sessionOf (mkRows (Ok ["id"; "name"]) [] None))
                "SELECT" [] tt)
  = Return (None, None)
  /\ outcome_of (Query Samples.convertAssignStd Samples.User 0
                   (Samples.sessionOf
                      (mkRows (Ok ["id"; "name"])
                         [[DInt 1; DString "a"]; [DString "two"; DString "b"]] None))
                   "SELECT" [] tt)
     = Return (None,
               Some (ErrScan 0 "id"
                       (ErrDriver "converting driver.Value type: unsupported Scan"))).
Proof. split; vm_compute; reflexivity. Qed.

(** C9. For every type whose kind is not [Struct]: once the session has
    handed out a cursor that answers [Columns] and yields a row, [Query]
    does not return; [createFieldMap] panics in [NumField], the deferred
    [Close] runs and the panic leaves [Query]. On the same cursor [Query]
    returns for every record shape. *)
Theorem Query_on_non_struct_type_panics {W : Type}
    (convertAssign : Kind -> DbValue -> result GoLeaf) (k : Kind)
    (ctx : Context) (conn : IDbSession W) (query : string)
    (args : list DbValue) (w w1 : W) (rows : Rows) (columns : list string)
    (row : list DbValue) (rest : list (list DbValue)) :
  QueryContext conn ctx query args w = (Ok rows, w1) ->
  Columns rows = Ok columns ->
  rows_data rows = row :: rest ->
  (exists msg,
      createFieldMap (TBasic k) [] columns "" = Panic msg
      /\ Query convertAssign (TBasic k) ctx conn query args w
         = (Panic msg, w1, [EvQueryContext query; EvClose]))
  /\ (forall fields, exists res err,
        Query convertAssign (TStruct fields) ctx conn query args w
        = (Return (res, err), w1, [EvQueryContext query; EvClose])).
Proof.
  intros Hconn Hcols Hdata. split.
  - eexists. split; [reflexivity |].
    rewrite Query_unfold, Hconn. unfold parseDbResult. rewrite Hcols, Hdata.
    reflexivity.
  - intros fields. rewrite Query_unfold, Hconn. unfold parseDbResult. rewrite Hcols.
    destruct (parseRows_struct_returns convertAssign fields columns
                (rows_err rows) (rows_data rows) None) as (res & err & ->).
    destruct err as [e |]; by eexists _, _.
Qed.

(** [Query[int]] on the cursor over one row. *)
Lemma Query_on_non_struct_type_panics_witness :
  QueryContext (Samples.sessionOf Samples.addressRows) 0 "SELECT" [] tt
  = (Ok Samples.addressRows, tt)
  /\ exists msg,
       Query Samples.convertAssignStd (TBasic KInt) 0
         (Samples.sessionOf Samples.addressRows) "SELECT" [] tt
       = (Panic msg, tt, [EvQueryContext "SELECT"; EvClose]).
Proof.
  split; [reflexivity |].
  destruct (proj1 (Query_on_non_struct_type_panics Samples.convertAssignStd KInt 0
                     (Samples.sessionOf Samples.addressRows) "SELECT" [] tt tt
                     Samples.addressRows ["id"; "address_street"]
                     [DInt 1; DString "Main St"] [] eq_refl eq_refl eq_refl))
    as (msg & _ & Hrun).
  exists msg. exact Hrun.
Defined.

(** Without a row no field map is built and [Query[int]] returns. *)
Example Query_on_non_struct_type_without_rows :
  outcome_of (Query Samples.convertAssignStd (TBasic KInt) 0
                (Samples.sessionOf (mkRows (Ok ["n"]) [] None)) "SELECT" [] tt)
  = Return (None, None).
Proof. reflexivity. Qed.

(* ===================================================================== *)
(** * The transaction scope: facts and claims                             *)
(* ===================================================================== *)

(** [ExecuteInTransaction], path by path: the result, the final state and
    the calls made. *)
Lemma ExecuteInTransaction_unfold {W T : Type} (zero : T) ctx
    (db : IDbConnection W) (tsf : TransactionScopeFunction W T) opts w :
  ExecuteInTransaction zero ctx db tsf opts w
  = match BeginTx db ctx (head opts) w with
    | (Err e, w1) => (Return (zero, Some e), w1, [EvBeginTx])
    | (Ok tx, w1) =>
        match tsf ctx tx w1 with
        | (Panic msg, w2) =>
            (Panic msg, (Rollback tx w2).2,
             [EvBeginTx; EvScopeFn (tx_id tx); EvRollback (tx_id tx)])
        | (Return (_, Some e), w2) =>
            (Return (zero, Some e), (Rollback tx w2).2,
             [EvBeginTx; EvScopeFn (tx_id tx); EvRollback (tx_id tx)])
        | (Return (r, None), w2) =>
            (Return (match (Commit tx w2).1 with
                     | Some e => (zero, Some e)
                     | None => (r, None)
                     end),
             (Rollback tx (Commit tx w2).2).2,
             [EvBeginTx; EvScopeFn (tx_id tx); EvCommit (tx_id tx);
              EvRollback (tx_id tx)])
        end
    end.
Proof.
  unfold ExecuteInTransaction, mbind, M_bind, call, callback, defer, mret, M_ret.
  destruct (BeginTx db ctx (head opts) w) as [[tx | e] w1]; [| done].
  destruct (tsf ctx tx w1) as [[[r [e |]] | msg] w2].
  - by destruct (Rollback tx w2).
  - destruct (Commit tx w2) as [[e |] w3]; cbn [fst snd];
      by destruct (Rollback tx w3).
  - by destruct (Rollback tx w2).
Qed.

(** C1, as the code has it. When [BeginTx] fails nothing is called on a
    handle. When it yields a handle, [Rollback] is called on it exactly
    once, as the last call, however the scope function ends; [Commit] is
    called exactly once, before that, when the scope function returns
    without error, and not at all otherwise. If that [Commit] fails, its
    error is returned with the zero value. *)
Theorem ExecuteInTransaction_terminates_handle {W T : Type} (zero : T)
    (ctx : Context) (db : IDbConnection W) (tsf : TransactionScopeFunction W T)
    (opts : list TxOptions) (w : W) :
  let run := ExecuteInTransaction zero ctx db tsf opts w in
  match BeginTx db ctx (head opts) w with
  | (Err e, _) =>
      outcome_of run = Return (zero, Some e)
      /\ commitCalls (trace_of run) = 0 /\ rollbackCalls (trace_of run) = 0
  | (Ok tx, w1) =>
      rollbackCalls (trace_of run) = 1
      /\ last (trace_of run) = Some (EvRollback (tx_id tx))
      /\ match tsf ctx tx w1 with
         | (Return (r, None), w2) =>
             commitCalls (trace_of run) = 1
             /\ trace_of run
                = [EvBeginTx; EvScopeFn (tx_id tx); EvCommit (tx_id tx);
                   EvRollback (tx_id tx)]
             /\ match (Commit tx w2).1 with
                | Some e => outcome_of run = Return (zero, Some e)
                | None => outcome_of run = Return (r, None)
                end
         | (Return (_, Some e), _) =>
             commitCalls (trace_of run) = 0
             /\ outcome_of run = Return (zero, Some e)
         | (Panic msg, _) =>
             commitCalls (trace_of run) = 0 /\ outcome_of run = Panic msg
         end
  end.
Proof.
  cbv zeta. rewrite ExecuteInTransaction_unfold.
  destruct (BeginTx db ctx (head opts) w) as [[tx | e] w1]; [| done].
  destruct (tsf ctx tx w1) as [[[r [e |]] | msg] w2]; cbn; try done.
  by destruct (Commit tx w2).1.
Qed.

(** C1, as stated, fails on the successful path: both [Commit] and
    [Rollback] are called on the handle, once each. *)
Lemma successful_scope_calls_commit_and_rollback :
  outcome_of (ExecuteInTransaction 0 0 TxSamples.goodDb TxSamples.transfer []
                TxSamples.emptyDb)
  = Return (42, None)
  /\ trace_of (ExecuteInTransaction 0 0 TxSamples.goodDb TxSamples.transfer []
                 TxSamples.emptyDb)
     = [EvBeginTx; EvScopeFn 7; EvCommit 7; EvRollback 7]
  /\ exactlyOneTermination
       (trace_of (ExecuteInTransaction 0 0 TxSamples.goodDb TxSamples.transfer []
                    TxSamples.emptyDb))
     = false.
Proof. repeat split; vm_compute; reflexivity. Qed.

(** The scenario of a failing commit: the commit error is returned and
    both calls were made. *)
Example failing_commit_returns_commit_error :
  ExecuteInTransaction 0 0 TxSamples.badCommitDb TxSamples.transfer []
    TxSamples.emptyDb
  = (Return (0, Some TxSamples.ErrCommit),
     TxSamples.mkDb [] [] true,
     [EvBeginTx; EvScopeFn 7; EvCommit 7; EvRollback 7]).
Proof. vm_compute. reflexivity. Qed.

(** A scope function that panics after a write: the rollback still runs. *)
Example panicking_scope_is_rolled_back :
  ExecuteInTransaction 0 0 TxSamples.goodDb TxSamples.crash [] TxSamples.emptyDb
  = (Panic "index out of range", TxSamples.mkDb [] [] true,
     [EvBeginTx; EvScopeFn 7; EvRollback 7]).
Proof. vm_compute. reflexivity. Qed.

(** C6. If [BeginTx] yields a handle and the scope function returns an
    error, [ExecuteInTransaction] returns that error with the zero value of
    [T]; it calls [Rollback] on the handle, once, in the state the scope
    function left, and never calls [Commit]. *)
Theorem scope_error_rolls_back {W T : Type} (zero : T) (ctx : Context)
    (db : IDbConnection W) (tsf : TransactionScopeFunction W T)
    (opts : list TxOptions) (w w1 w2 : W) (tx : Tx W) (r : T) (e : error) :
  BeginTx db ctx (head opts) w = (Ok tx, w1) ->
  tsf ctx tx w1 = (Return (r, Some e), w2) ->
  outcome_of (ExecuteInTransaction zero ctx db tsf opts w) = Return (zero, Some e)
  /\ trace_of (ExecuteInTransaction zero ctx db tsf opts w)
     = [EvBeginTx; EvScopeFn (tx_id tx); EvRollback (tx_id tx)]
  /\ rollbackCalls (trace_of (ExecuteInTransaction zero ctx db tsf opts w)) = 1
  /\ commitCalls (trace_of (ExecuteInTransaction zero ctx db tsf opts w)) = 0
  /\ world_of (ExecuteInTransaction zero ctx db tsf opts w) = (Rollback tx w2).2.
Proof.
  intros Hbegin Hscope. rewrite ExecuteInTransaction_unfold, Hbegin, Hscope.
  by cbn.
Qed.

(** The scenario of the specification: the scope function writes and then
    fails; the write is gone and nothing was committed. *)
Lemma scope_error_rolls_back_witness :
  BeginTx TxSamples.goodDb 0 (head []) TxSamples.emptyDb
  = (Ok TxSamples.goodTx, TxSamples.emptyDb)
  /\ TxSamples.overdraw 0 TxSamples.goodTx TxSamples.emptyDb
     = (Return (13, Some TxSamples.ErrBusiness),
        TxSamples.write "debit" TxSamples.emptyDb)
  /\ outcome_of (ExecuteInTransaction 0 0 TxSamples.goodDb TxSamples.overdraw []
                   TxSamples.emptyDb)
     = Return (0, Some TxSamples.ErrBusiness)
  /\ commitCalls (trace_of (ExecuteInTransaction 0 0 TxSamples.goodDb
                              TxSamples.overdraw [] TxSamples.emptyDb)) = 0
  /\ world_of (ExecuteInTransaction 0 0 TxSamples.goodDb TxSamples.overdraw []
                 TxSamples.emptyDb)
     = TxSamples.mkDb [] [] true.
Proof.
  split; [reflexivity |]. split; [reflexivity |].
  destruct (scope_error_rolls_back 0 0 TxSamples.goodDb TxSamples.overdraw []
              TxSamples.emptyDb TxSamples.emptyDb
              (TxSamples.write "debit" TxSamples.emptyDb)
              TxSamples.goodTx 13 TxSamples.ErrBusiness eq_refl eq_refl)
    as (Hout & _ & _ & Hcommit & Hworld).
  split; [exact Hout |]. split; [exact Hcommit | exact Hworld].
Defined.

(** An error of [ExecuteInTransaction] is one that [BeginTx], the scope
    function or [Commit] returned. *)
Lemma ExecuteInTransaction_error_origin {W T : Type} (zero : T) ctx
    (db : IDbConnection W) (tsf : TransactionScopeFunction W T) opts w v e :
  outcome_of (ExecuteInTransaction zero ctx db tsf opts w) = Return (v, Some e) ->
  fromTransactionParties ctx db tsf opts w e.
Proof.
  rewrite ExecuteInTransaction_unfold. unfold fromTransactionParties.
  destruct (BeginTx db ctx (head opts) w) as [[tx | e'] w1]; cbn.
  - destruct (tsf ctx tx w1) as [[[r [e' |]] | msg] w2]; cbn.
    + intros Hrun. by simplify_eq.
    + destruct (Commit tx w2).1 as [e' |]; intros Hrun; by simplify_eq.
    + done.
  - intros Hrun. by simplify_eq.
Qed.

(* ===================================================================== *)
(** * The asynchronous entry points and the origin of errors              *)
(* ===================================================================== *)

(** The executor that runs the work where it stands keeps the contract. *)
Lemma inlineAsync_resolvesOnce {W : Type} : resolvesOnce (@TxSamples.inlineAsync W).
Proof. intros V ctx f w p Hrun. cbn. by rewrite Hrun. Qed.

(** C8. Over a background execution capability that keeps its contract (a
    unit of work that returns resolves the result once, with what it
    returned): whenever [Query] returns, the result of [QueryAsync] for the
    same arguments is resolved exactly once, with the pair [Query]
    returns, which is what the specification asks of it; and likewise for
    [ExecuteInTransactionAsync] and [ExecuteInTransaction]. *)
Theorem async_results_refine_sync {W : Type} (A : Async W) :
  resolvesOnce A ->
  (forall convertAssign T ctx (conn : IDbSession W) query args w p,
      outcome_of (Query convertAssign T ctx conn query args w) = Return p ->
      resolved (QueryAsync convertAssign T ctx conn query args) w = [p]
      /\ resolved (QueryAsync convertAssign T ctx conn query args) w
         = QueryAsync_spec convertAssign T ctx conn query args w)
  /\ (forall (T : Type) (zero : T) ctx (db : IDbConnection W)
             (tsf : TransactionScopeFunction W T) opts w p,
        outcome_of (ExecuteInTransaction zero ctx db tsf opts w) = Return p ->
        resolved (ExecuteInTransactionAsync zero ctx db tsf opts) w = [p]
        /\ resolved (ExecuteInTransactionAsync zero ctx db tsf opts) w
           = ExecuteInTransactionAsync_spec zero ctx db tsf opts w).
Proof.
  intros Hcontract. split.
  - intros convertAssign T ctx conn query args w p Hrun.
    unfold QueryAsync, QueryAsync_spec. rewrite Hrun.
    split; by apply (Hcontract _ ctx (fun ctx' => Query convertAssign T ctx' conn query args)).
  - intros T zero ctx db tsf opts w p Hrun.
    unfold ExecuteInTransactionAsync, ExecuteInTransactionAsync_spec. rewrite Hrun.
    split; by apply (Hcontract _ ctx (fun ctx' => ExecuteInTransaction zero ctx' db tsf opts)).
Qed.

(** The two-row query and the successful transfer, run in the background
    by the executor that runs the work where it stands. *)
Lemma async_results_refine_sync_witness :
  resolved (@QueryAsync unit Samples.convertAssignStd TxSamples.inlineAsync
              Samples.User 0
              (Samples.sessionOf
                 (mkRows (Ok ["id"; "name"])
                    [[DInt 1; DString "a"]; [DInt 2; DString "b"]] None))
              "SELECT" []) tt
  = [(Some [ VStruct [VBasic (LInt 1); VBasic (LString "a")];
             VStruct [VBasic (LInt 2); VBasic (LString "b")] ], None)]
  /\ resolved (@ExecuteInTransactionAsync TxSamples.Db nat 0 TxSamples.inlineAsync
                 0 TxSamples.goodDb TxSamples.transfer []) TxSamples.emptyDb
     = [(42, None)].
Proof.
  destruct (async_results_refine_sync (@TxSamples.inlineAsync unit)
              inlineAsync_resolvesOnce) as [Hquery _].
  destruct (async_results_refine_sync (@TxSamples.inlineAsync TxSamples.Db)
              inlineAsync_resolvesOnce) as [_ Htx].
  split.
  - exact (proj1 (Hquery Samples.convertAssignStd Samples.User 0
                    (Samples.sessionOf
                       (mkRows (Ok ["id"; "name"])
                          [[DInt 1; DString "a"]; [DInt 2; DString "b"]] None))
                    "SELECT" [] tt _ eq_refl)).
  - exact (proj1 (Htx nat 0 0 TxSamples.goodDb TxSamples.transfer []
                    TxSamples.emptyDb _ eq_refl)).
Defined.

(** C10. [createFieldMap] returns a nil error for every record shape,
    address, column list and prefix. Hence no error of the four entry
    points is made by the mapper: an error [Query] returns was returned by
    [QueryContext], [Columns], [Scan] or [Err], and what [Scan] makes
    itself is not an [ErrInvalidDataType]; an error
    [ExecuteInTransaction] returns was returned by [BeginTx], the scope
    function or [Commit]; and over an executor that keeps its contract the
    asynchronous results carry the same errors. *)
Theorem mapping_error_is_never_produced :
  (forall fields addr columns prefix,
      exists fieldMap,
        createFieldMap (TStruct fields) addr columns prefix = Return (fieldMap, None))
  /\ (forall convertAssign columns dest row item e,
        (rowsScan convertAssign columns dest row item).2 = Some e ->
        isErrInvalidDataType e = false)
  /\ (forall W convertAssign T ctx (conn : IDbSession W) query args w res e,
        outcome_of (Query convertAssign T ctx conn query args w) = Return (res, Some e) ->
        fromDatabaseLayer convertAssign T ctx conn query args w e)
  /\ (forall W (T : Type) (zero : T) ctx (db : IDbConnection W)
             (tsf : TransactionScopeFunction W T) opts w v e,
        outcome_of (ExecuteInTransaction zero ctx db tsf opts w) = Return (v, Some e) ->
        fromTransactionParties ctx db tsf opts w e)
  /\ (forall W (A : Async W), resolvesOnce A ->
        (forall convertAssign T ctx (conn : IDbSession W) query args w p res e,
            outcome_of (Query convertAssign T ctx conn query args w) = Return p ->
            (res, Some e) ∈ resolved (QueryAsync convertAssign T ctx conn query args) w ->
            fromDatabaseLayer convertAssign T ctx conn query args w e)
        /\ (forall (T : Type) (zero : T) ctx (db : IDbConnection W)
                   (tsf : TransactionScopeFunction W T) opts w p v e,
              outcome_of (ExecuteInTransaction zero ctx db tsf opts w) = Return p ->
              (v, Some e) ∈ resolved (ExecuteInTransactionAsync zero ctx db tsf opts) w ->
              fromTransactionParties ctx db tsf opts w e)).
Proof.
  split; [| split; [| split; [| split]]].
  - intros fields addr columns prefix. eexists.
    apply (createFieldMap_bindings columns (TStruct fields)).
  - intros convertAssign columns dest row item e. apply rowsScan_error_not_mapping.
  - intros W convertAssign T ctx conn query args w res e. apply Query_error_origin.
  - intros W T zero ctx db tsf opts w v e. apply ExecuteInTransaction_error_origin.
  - intros W A Hcontract. split.
    + intros convertAssign T ctx conn query args w p res e Hrun Hin.
      unfold QueryAsync in Hin.
      rewrite (Hcontract _ ctx (fun ctx' => Query convertAssign T ctx' conn query args)
                 w p Hrun) in Hin.
      apply list_elem_of_singleton in Hin. subst p.
      by eapply Query_error_origin.
    + intros T zero ctx db tsf opts w p v e Hrun Hin.
      unfold ExecuteInTransactionAsync in Hin.
      rewrite (Hcontract _ ctx (fun ctx' => ExecuteInTransaction zero ctx' db tsf opts)
                 w p Hrun) in Hin.
      apply list_elem_of_singleton in Hin. subst p.
      by eapply ExecuteInTransaction_error_origin.
Qed.

(** The error of a scan that fails on the second row is the one
    [Rows.Scan] returned; the error of the overdraft is the scope
    function's. *)
Lemma mapping_error_is_never_produced_witness :
  fromDatabaseLayer Samples.convertAssignStd Samples.User 0
    (Samples.sessionOf
       (mkRows (Ok ["id"; "name"])
          [[DInt 1; DString "a"]; [DString "two"; DString "b"]] None))
    "SELECT" [] tt
    (ErrScan 0 "id" (ErrDriver "converting driver.Value type: unsupported Scan"))
  /\ fromTransactionParties 0 TxSamples.goodDb TxSamples.overdraw []
       TxSamples.emptyDb TxSamples.ErrBusiness.
Proof.
  destruct mapping_error_is_never_produced as (_ & _ & Hquery & Htx & _).
  split.
  - exact (Hquery unit Samples.convertAssignStd Samples.User 0
             (Samples.sessionOf
                (mkRows (Ok ["id"; "name"])
                   [[DInt 1; DString "a"]; [DString "two"; DString "b"]] None))
             "SELECT" [] tt None _ eq_refl).
  - exact (Htx TxSamples.Db nat 0 0 TxSamples.goodDb TxSamples.overdraw []
             TxSamples.emptyDb 0 TxSamples.ErrBusiness eq_refl).
Defined.

(* ===================================================================== *)
(** * Further properties of [Query] and [parseDbResult]                   *)
(* ===================================================================== *)


(** X2. [Query] panics in exactly one situation: the session handed out a
    cursor, the cursor answered [Columns], it yields at least one row, and
    the type parameter is not a struct. In every other case it returns. *)
Theorem Query_panics_iff {W : Type}
    (convertAssign : Kind -> DbValue -> result GoLeaf) (T : GoType)
    (ctx : Context) (conn : IDbSession W) (query : string)
    (args : list DbValue) (w : W) :
  (exists msg, outcome_of (Query convertAssign T ctx conn query args w) = Panic msg)
  <-> exists rows w1 columns k,
        QueryContext conn ctx query args w = (Ok rows, w1)
        /\ Columns rows = Ok columns
        /\ rows_data rows ≠ []
        /\ T = TBasic k.
Proof.
  rewrite Query_unfold.
  destruct (QueryContext conn ctx query args w) as [[rows | e] w1] eqn:Hconn; cbn.
  - unfold parseDbResult.
    destruct (Columns rows) as [columns | e] eqn:Hcols.
    + destruct T as [k | fields].
      * destruct (rows_data rows) as [| row rest] eqn:Hdata; cbn.
        -- split; [destruct (rows_err rows); by intros [msg ?] |].
           intros (rows' & w1' & columns' & k' & Heq & _ & Hne & _).
           by simplify_eq.
        -- split; [| intros _; eexists; reflexivity].
           intros _. exists rows, w1, columns, k. by rewrite Hdata.
      * destruct (parseRows_struct_returns convertAssign fields columns
                    (rows_err rows) (rows_data rows) None) as (res & err & ->).
        split.
        -- destruct err; by intros [msg ?].
        -- by intros (rows' & w1' & columns' & k' & _ & _ & _ & ?).
    + split; [by intros [msg ?] |].
      intros (rows' & w1' & columns' & k' & Heq & Hcols' & _).
      simplify_eq. by rewrite Hcols in Hcols'.
  - split; [by intros [msg ?] |].
    by intros (rows' & w1' & columns' & k' & ? & _).
Qed.

(** X3. The error of the first row that fails to scan is the error of
    [Query]: the rows before it scanned, the rows after it are never
    scanned and the terminal error of the cursor is not asked for; the
    records scanned so far are dropped. *)
Theorem Query_returns_first_scan_error {W : Type}
    (convertAssign : Kind -> DbValue -> result GoLeaf) (T : GoType)
    (ctx : Context) (conn : IDbSession W) (query : string)
    (args : list DbValue) (w w1 : W) (rows : Rows) (columns : list string)
    (scanned : list (list DbValue)) (items : list Value)
    (bad : list DbValue) (item : Value) (e : error)
    (later : list (list DbValue)) :
  QueryContext conn ctx query args w = (Ok rows, w1) ->
  Columns rows = Ok columns ->
  rows_data rows = scanned ++ bad :: later ->
  Forall2 (scansTo convertAssign T columns) scanned items ->
  scanRow convertAssign T columns bad = Return (item, Some e) ->
  Query convertAssign T ctx conn query args w
  = (Return (None, Some e), w1, [EvQueryContext query; EvClose]).
Proof.
  intros Hconn Hcols Hdata Hscanned Hbad.
  rewrite Query_unfold, Hconn. unfold parseDbResult. rewrite Hcols, Hdata.
  enough (forall acc,
             parseRows convertAssign T columns (scanned ++ bad :: later)
               (rows_err rows) acc = Return (None, Some e)) as Hrows
    by (by rewrite Hrows).
  clear Hdata.
  induction Hscanned as [| row it rest its Hrow _ IH]; intros acc.
  - cbn [app parseRows]. by rewrite Hbad.
  - cbn [app parseRows]. unfold scansTo in Hrow. by rewrite Hrow, IH.
Qed.

(** The second of three rows cannot be converted; the third never is, and
    the reset of the connection goes unreported. *)
Lemma Query_returns_first_scan_error_witness :
  Query Samples.convertAssignStd Samples.User 0
    (Samples.sessionOf
       (mkRows (Ok ["id"; "name"])
          [ [DInt 1; DString "a"]; [DString "two"; DString "b"];
            [DBool true; DString "c"] ]
          (Some (ErrDriver "connection reset"))))
    "SELECT" [] tt
  = (Return (None,
             Some (ErrScan 0 "id"
                     (ErrDriver "converting driver.Value type: unsupported Scan"))),
     tt, [EvQueryContext "SELECT"; EvClose]).
Proof.
  exact (Query_returns_first_scan_error Samples.convertAssignStd Samples.User 0
           (Samples.sessionOf
              (mkRows (Ok ["id"; "name"])
                 [ [DInt 1; DString "a"]; [DString "two"; DString "b"];
                   [DBool true; DString "c"] ]
                 (Some (ErrDriver "connection reset"))))
           "SELECT" [] tt tt _ ["id"; "name"]
           [[DInt 1; DString "a"]]
           [VStruct [VBasic (LInt 1); VBasic (LString "a")]]
           [DString "two"; DString "b"]
           (VStruct [VBasic (LInt 0); VBasic (LString "")])
           _
           [[DBool true; DString "c"]]
           eq_refl eq_refl eq_refl
           ltac:(repeat constructor; vm_compute; reflexivity)
           eq_refl).
Defined.

(** X4. When every row scans and the cursor then reports a terminal
    error, [Query] returns that error and the nil slice; the records of
    the rows are dropped. *)
Theorem Query_returns_terminal_error {W : Type}
    (convertAssign : Kind -> DbValue -> result GoLeaf) (T : GoType)
    (ctx : Context) (conn : IDbSession W) (query : string)
    (args : list DbValue) (w w1 : W) (rows : Rows) (columns : list string)
    (items : list Value) (e : error) :
  QueryContext conn ctx query args w = (Ok rows, w1) ->
  Columns rows = Ok columns ->
  Forall2 (scansTo convertAssign T columns) (rows_data rows) items ->
  rows_err rows = Some e ->
  Query convertAssign T ctx conn query args w
  = (Return (None, Some e), w1, [EvQueryContext query; EvClose]).
Proof.
  intros Hconn Hcols Hall Hterm.
  rewrite Query_unfold, Hconn. unfold parseDbResult. rewrite Hcols.
  by rewrite (parseRows_all_scanned _ _ _ _ _ _ Hall), Hterm.
Qed.

Lemma Query_returns_terminal_error_witness :
  Query Samples.convertAssignStd Samples.User 0
    (Samples.sessionOf
       (mkRows (Ok ["id"; "name"]) [[DInt 1; DString "a"]]
          (Some (ErrDriver "connection reset"))))
    "SELECT" [] tt
  = (Return (None, Some (ErrDriver "connection reset")), tt,
     [EvQueryContext "SELECT"; EvClose]).
Proof.
  exact (Query_returns_terminal_error Samples.convertAssignStd Samples.User 0
           (Samples.sessionOf
              (mkRows (Ok ["id"; "name"]) [[DInt 1; DString "a"]]
                 (Some (ErrDriver "connection reset"))))
           "SELECT" [] tt tt _ ["id"; "name"]
           [VStruct [VBasic (LInt 1); VBasic (LString "a")]]
           (ErrDriver "connection reset")
           eq_refl eq_refl
           ltac:(repeat constructor; vm_compute; reflexivity)
           eq_refl).
Defined.

(* ===================================================================== *)
(** * Further properties of [createFieldMap]                              *)
(* ===================================================================== *)

(** X5. [createFieldMap] never reads its [columns] argument: for every
    type, address and prefix the outcome is the same whatever the column
    list, so the bindings of a record shape do not depend on the query. *)
Theorem createFieldMap_ignores_columns (t : GoType) (addr : list nat)
    (columns columns' : list string) (prefix : string) :
  createFieldMap t addr columns prefix = createFieldMap t addr columns' prefix.
Proof.
  destruct t as [k | fields]; [done |].
  pose proof (createFieldMap_bindings columns (TStruct fields) addr prefix) as H.
  pose proof (createFieldMap_bindings columns' (TStruct fields) addr prefix) as H'.
  cbn beta iota in H, H'. by rewrite H, H'.
Qed.

Lemma bindingsMap_lookup name l :
  bindingsMap l !! name = lastBinding name l.
Proof.
  induction l as [| [k p] rest IH]; [done |].
  change ((k, p) :: rest) with ([(k, p)] ++ rest).
  rewrite bindingsMap_app, bindingsMap_singleton, lookup_union, IH.
  cbn [app lastBinding].
  destruct (lastBinding name rest) as [q |].
  - by destruct ({[k := p]} !! name).
  - rewrite (left_id_L None union).
    destruct (decide (k = name)) as [-> | Hne].
    + by rewrite lookup_singleton_eq.
    + by rewrite lookup_singleton_ne.
Qed.

(** X6. What a name is bound to. [createFieldMap] binds a column name to
    the field that yields it last in field order, embedded and nested
    records taken in place; a name no settable field yields is not bound.
    So of two fields of one column name the later shadows the earlier,
    whichever of them is the embedded one. *)
Theorem createFieldMap_binds_last_field (fields : list (StructField * GoType))
    (addr : list nat) (columns : list string) (prefix name : string) :
  exists fieldMap,
    createFieldMap (TStruct fields) addr columns prefix = Return (fieldMap, None)
    /\ fieldMap !! name
       = lastBinding name (withPrefix prefix (columnBindings (TStruct fields) addr)).
Proof.
  eexists. split; [apply (createFieldMap_bindings columns (TStruct fields)) |].
  apply bindingsMap_lookup.
Qed.

(** The column [id] goes to the field of the record itself when that
    field stands after the embedded record, and to the field of the
    embedded record when the embedded record stands last. *)
Example shadowing_follows_field_order :
  lastBinding "id" (columnBindings ShadowSamples.OuterLast []) = Some (mkPtr [1] KInt)
  /\ lastBinding "id" (columnBindings ShadowSamples.EmbeddedLast [])
     = Some (mkPtr [1; 0] KInt).
Proof. split; reflexivity. Qed.

(* ===================================================================== *)
(** * Further properties of the transaction scope                         *)
(* ===================================================================== *)

(** X9. The successful path, in full: when the handle is begun, the scope
    function returns a value without error and [Commit] succeeds,
    [ExecuteInTransaction] returns that value and no error, whatever the
    deferred [Rollback] returns; and if [Rollback] leaves a committed
    handle as it is, the final state is the committed state. *)
Theorem committed_scope_returns_value {W T : Type} (zero : T) (ctx : Context)
    (db : IDbConnection W) (tsf : TransactionScopeFunction W T)
    (opts : list TxOptions) (w w1 w2 w3 : W) (tx : Tx W) (r : T) :
  BeginTx db ctx (head opts) w = (Ok tx, w1) ->
  tsf ctx tx w1 = (Return (r, None), w2) ->
  Commit tx w2 = (None, w3) ->
  outcome_of (ExecuteInTransaction zero ctx db tsf opts w) = Return (r, None)
  /\ world_of (ExecuteInTransaction zero ctx db tsf opts w) = (Rollback tx w3).2
  /\ ((Rollback tx w3).2 = w3 ->
      ExecuteInTransaction zero ctx db tsf opts w
      = (Return (r, None), w3,
         [EvBeginTx; EvScopeFn (tx_id tx); EvCommit (tx_id tx);
          EvRollback (tx_id tx)])).
Proof.
  intros Hbegin Hscope Hcommit.
  rewrite ExecuteInTransaction_unfold, Hbegin, Hscope, Hcommit. cbn.
  split; [done |]. split; [done |]. by intros ->.
Qed.

(** The transfer is committed; the rollback that follows finds the handle
    done and changes nothing. *)
Lemma committed_scope_returns_value_witness :
  (Rollback TxSamples.goodTx (TxSamples.mkDb ["debit"] [] true)).2
  = TxSamples.mkDb ["debit"] [] true
  /\ ExecuteInTransaction 0 0 TxSamples.goodDb TxSamples.transfer []
       TxSamples.emptyDb
     = (Return (42, None), TxSamples.mkDb ["debit"] [] true,
        [EvBeginTx; EvScopeFn 7; EvCommit 7; EvRollback 7]).
Proof.
  split; [reflexivity |].
  exact (proj2 (proj2 (committed_scope_returns_value 0 0 TxSamples.goodDb
                         TxSamples.transfer [] TxSamples.emptyDb TxSamples.emptyDb
                         (TxSamples.write "debit" TxSamples.emptyDb)
                         (TxSamples.mkDb ["debit"] [] true)
                         TxSamples.goodTx 42 eq_refl eq_refl eq_refl))
           eq_refl).
Defined.

(* ===================================================================== *)
(** * The error type                                                      *)
(* ===================================================================== *)

Lemma append_inj_l (p a b : string) : p +:+ a = p +:+ b -> a = b.
Proof.
  induction p as [| c p IH]; [done |].
  intros Heq. apply IH.
  change (String c (p +:+ a) = String c (p +:+ b)) in Heq. by simplify_eq.
Qed.




(* ===================================================================== *)
(** * What the bindings point to                                          *)
(* ===================================================================== *)

Lemma elem_of_qualifyAll r l p :
  (exists name, (name, p) ∈ qualifyAll r l) <-> (exists name, (name, p) ∈ l).
Proof.
  unfold qualifyAll. split.
  - intros [name Hin]. apply list_elem_of_In, in_map_iff in Hin
      as ([name' p'] & Heq & Hin). cbn in Heq. simplify_eq.
    exists name'. by apply list_elem_of_In.
  - intros [name Hin]. exists (qualify r name).
    apply list_elem_of_In, in_map_iff. exists (name, p).
    split; [done | by apply list_elem_of_In].
Qed.

(** The pointers one field contributes: those below index [i]. *)
Lemma fieldBindings_pointers addr :
  forall fields,
    Forall (fun ft => forall addr p,
              match ft.2 with
              | TBasic _ => True
              | TStruct _ =>
                  (exists name, (name, p) ∈ columnBindings ft.2 addr)
                  <-> exists rel, ptr_path p = addr ++ rel
                                  /\ fieldAt rel ft.2 = Some (ptr_kind p)
              end) fields ->
    forall i p,
      (exists name, (name, p) ∈ fieldBindings addr fields i)
      <-> exists j f ft rel,
            fields !! j = Some (f, ft) /\ CanSet f = true
            /\ ptr_path p = addr ++ (i + j) :: rel
            /\ fieldAt rel ft = Some (ptr_kind p).
Proof.
  induction 1 as [| [f ft] rest Hft _ IH]; intros i p.
  - cbn. split; [intros [name Hin]; by apply elem_of_nil in Hin |].
    by intros (j & f & ft & rel & Hj & _).
  - cbn [fieldBindings].
    assert (Hhere :
      (exists name,
          (name, p) ∈ (if CanSet f
                       then match ft with
                            | TBasic k => [(resolvedName f, mkPtr (addr ++ [i]) k)]
                            | TStruct _ =>
                                if Anonymous f then columnBindings ft (addr ++ [i])
                                else qualifyAll (resolvedName f)
                                       (columnBindings ft (addr ++ [i]))
                            end
                       else []))
      <-> CanSet f = true
          /\ exists rel, ptr_path p = addr ++ i :: rel
                         /\ fieldAt rel ft = Some (ptr_kind p)).
    { destruct (CanSet f).
      - destruct ft as [k | inner].
        + split.
          * intros [name Hin]. apply list_elem_of_singleton in Hin. simplify_eq.
            split; [done |]. by exists [].
          * intros (_ & rel & Hpath & Hat). destruct rel as [| ? ?]; [| done].
            cbn in Hat. exists (resolvedName f). apply list_elem_of_singleton.
            destruct p as [path kind]. cbn in *. by simplify_eq.
        + specialize (Hft (addr ++ [i]) p). cbn [snd] in Hft.
          assert (Hshift : forall rel, (addr ++ [i]) ++ rel = addr ++ i :: rel)
            by (intros rel; by rewrite <- (assoc_L (++))).
          destruct (Anonymous f); [| rewrite elem_of_qualifyAll]; rewrite Hft;
            (split;
             [ intros (rel & Hpath & Hat); split; [done |]; exists rel;
               by rewrite <- Hshift
             | intros (_ & rel & Hpath & Hat); exists rel; by rewrite Hshift ]).
      - split; [intros [name Hin]; by apply elem_of_nil in Hin | by intros [? _]]. }
    split.
    + intros [name Hin]. apply elem_of_app in Hin as [Hin | Hin].
      * destruct (proj1 Hhere (ex_intro _ name Hin)) as (Hset & rel & Hpath & Hat).
        exists 0, f, ft, rel. by rewrite Nat.add_0_r.
      * destruct (proj1 (IH (S i) p) (ex_intro _ name Hin))
          as (j & f' & ft' & rel & Hj & Hset & Hpath & Hat).
        exists (S j), f', ft', rel.
        by replace (i + S j) with (S i + j) by lia.
    + intros (j & f' & ft' & rel & Hj & Hset & Hpath & Hat).
      destruct j as [| j].
      * cbn in Hj. simplify_eq. rewrite Nat.add_0_r in Hpath.
        destruct (proj2 Hhere (conj Hset (ex_intro _ rel (conj Hpath Hat))))
          as [name Hin].
        exists name. apply elem_of_app. by left.
      * cbn in Hj.
        destruct (proj2 (IH (S i) p)) as [name Hin].
        { exists j, f', ft', rel.
          by replace (S i + j) with (i + S j) by lia. }
        exists name. apply elem_of_app. by right.
Qed.

Lemma columnBindings_pointers :
  forall t addr p,
    match t with
    | TBasic _ => True
    | TStruct _ =>
        (exists name, (name, p) ∈ columnBindings t addr)
        <-> exists rel, ptr_path p = addr ++ rel /\ fieldAt rel t = Some (ptr_kind p)
    end.
Proof.
  induction t as [k | fields IH] using GoType_nested_ind; intros addr p; [done |].
  rewrite columnBindings_struct, (fieldBindings_pointers addr fields IH 0 p).
  split.
  - intros (j & f & ft & rel & Hj & Hset & Hpath & Hat).
    exists (j :: rel). split; [done |]. cbn. by rewrite Hj, Hset.
  - intros (rel & Hpath & Hat). destruct rel as [| j rel]; [done |].
    cbn in Hat. destruct (fields !! j) as [[f ft] |] eqn:Hj; [| done].
    destruct (CanSet f) eqn:Hset; [| done].
    by exists j, f, ft, rel.
Qed.


Lemma qualifyAll_pointers r l : (qualifyAll r l).*2 = l.*2.
Proof.
  unfold qualifyAll. induction l as [| [k p] l IH]; [done |].
  cbn. by rewrite <- IH.
Qed.

Lemma elem_of_pointers (l : list (string * FieldPtr)) p :
  p ∈ l.*2 <-> exists name, (name, p) ∈ l.
Proof.
  rewrite list_elem_of_fmap. split.
  - intros ([name p'] & -> & Hin). by exists name.
  - intros [name Hin]. by exists (name, p).
Qed.

(** No two bindings of a record shape address the same field. *)
Lemma fieldBindings_paths_NoDup addr :
  forall fields,
    Forall (fun ft => forall addr,
              NoDup (ptr_path <$> (columnBindings ft.2 addr).*2)) fields ->
    forall i, NoDup (ptr_path <$> (fieldBindings addr fields i).*2).
Proof.
  induction 1 as [| [f ft] rest Hft Hrest IH]; intros i; [constructor |].
  cbn [fieldBindings]. rewrite !fmap_app. apply NoDup_app.
  split; [| split; [| apply IH]].
  - destruct (CanSet f); [| constructor].
    destruct ft as [k | inner]; [apply NoDup_singleton |].
    specialize (Hft (addr ++ [i])). cbn [snd] in Hft.
    destruct (Anonymous f); [done |]. by rewrite qualifyAll_pointers.
  - intros path Hhere Hthere.
    assert (Hprefix : exists rel, path = addr ++ i :: rel).
    { destruct (CanSet f); [| by apply elem_of_nil in Hhere].
      destruct ft as [k | inner].
      - apply list_elem_of_singleton in Hhere. by exists [].
      - assert (Hin : path ∈ ptr_path <$> (columnBindings (TStruct inner) (addr ++ [i])).*2).
        { destruct (Anonymous f); [done |]. by rewrite qualifyAll_pointers in Hhere. }
        apply list_elem_of_fmap in Hin as (p & -> & Hin).
        apply elem_of_pointers in Hin.
        apply (columnBindings_pointers (TStruct inner)) in Hin as (rel & -> & _).
        exists rel. by rewrite <- (assoc_L (++)). }
    destruct Hprefix as [rel ->].
    apply list_elem_of_fmap in Hthere as (p & Hpath & Hin).
    apply elem_of_pointers in Hin.
    assert (Hall : Forall (fun ft => forall addr p,
              match ft.2 with
              | TBasic _ => True
              | TStruct _ =>
                  (exists name, (name, p) ∈ columnBindings ft.2 addr)
                  <-> exists rel, ptr_path p = addr ++ rel
                                  /\ fieldAt rel ft.2 = Some (ptr_kind p)
              end) rest).
    { apply Forall_forall. intros ft' _ addr' p'. apply columnBindings_pointers. }
    apply (fieldBindings_pointers addr rest Hall (S i) p) in Hin
      as (j & f' & ft' & rel' & _ & _ & Hpath' & _).
    rewrite Hpath' in Hpath. apply app_inv_head in Hpath. simplify_eq. lia.
Qed.

Lemma columnBindings_paths_NoDup :
  forall t addr, NoDup (ptr_path <$> (columnBindings t addr).*2).
Proof.
  induction t as [k | fields IH] using GoType_nested_ind; intros addr;
    [constructor |].
  rewrite columnBindings_struct. by apply fieldBindings_paths_NoDup.
Qed.

Lemma withPrefix_pointers prefix l : (withPrefix prefix l).*2 = l.*2.
Proof.
  unfold withPrefix. destruct (decide (prefix = "")); [done |].
  apply qualifyAll_pointers.
Qed.

(** X7. The fields that are bound. For every record shape the field map
    is made of a list of bindings, read in order so that of two bindings of
    one name the later stands, in which every field that is not a struct
    and is reached through settable fields only has exactly one binding,
    with its address and its kind, and nothing else has one: no unexported
    field, no field below one, no struct as a whole. *)
Theorem bindings_are_the_settable_leaves (fields : list (StructField * GoType))
    (addr : list nat) (columns : list string) (prefix : string) :
  exists fieldMap bindings,
    createFieldMap (TStruct fields) addr columns prefix = Return (fieldMap, None)
    /\ (forall name, fieldMap !! name = lastBinding name bindings)
    /\ (forall p,
          p ∈ bindings.*2
          <-> exists rel, ptr_path p = addr ++ rel
                          /\ fieldAt rel (TStruct fields) = Some (ptr_kind p))
    /\ NoDup (ptr_path <$> bindings.*2).
Proof.
  exists (bindingsMap (withPrefix prefix (columnBindings (TStruct fields) addr))),
         (withPrefix prefix (columnBindings (TStruct fields) addr)).
  split; [apply (createFieldMap_bindings columns (TStruct fields)) |].
  split; [intros name; apply bindingsMap_lookup |].
  rewrite withPrefix_pointers. split.
  - intros p. rewrite elem_of_pointers.
    apply (columnBindings_pointers (TStruct fields)).
  - apply columnBindings_paths_NoDup.
Qed.

Lemma lastBinding_elem name l p : lastBinding name l = Some p -> (name, p) ∈ l.
Proof.
  induction l as [| [k q] rest IH]; [done |]. cbn [lastBinding].
  destruct (lastBinding name rest) as [q' |].
  - intros ?. simplify_eq. apply list_elem_of_further. by apply IH.
  - destruct (decide (k = name)) as [-> | _]; [| done].
    intros ?. simplify_eq. apply list_elem_of_here.
Qed.

Lemma NoDup_fmap_elem {A B} (f : A -> B) (l : list A) x y :
  NoDup (f <$> l) -> x ∈ l -> y ∈ l -> f x = f y -> x = y.
Proof.
  induction l as [| a l IH]; intros Hnd Hx Hy Hf; [by apply elem_of_nil in Hx |].
  cbn in Hnd. apply NoDup_cons in Hnd as [Hnotin Hnd].
  apply elem_of_cons in Hx as [-> | Hx]; apply elem_of_cons in Hy as [-> | Hy].
  - done.
  - exfalso. apply Hnotin. rewrite Hf. by apply list_elem_of_fmap_2.
  - exfalso. apply Hnotin. rewrite <- Hf. by apply list_elem_of_fmap_2.
  - by apply IH.
Qed.

(** X8. Two column names that are bound in the field map of a record
    shape are bound to different fields unless they are the same name:
    no field is reachable under two names. *)
Theorem bound_names_address_distinct_fields (fields : list (StructField * GoType))
    (addr : list nat) (columns : list string) (prefix : string)
    (c c' : string) (p p' : FieldPtr) :
  exists fieldMap,
    createFieldMap (TStruct fields) addr columns prefix = Return (fieldMap, None)
    /\ (fieldMap !! c = Some p -> fieldMap !! c' = Some p' ->
        ptr_path p = ptr_path p' -> c = c' /\ p = p').
Proof.
  eexists. split; [apply (createFieldMap_bindings columns (TStruct fields)) |].
  rewrite !bindingsMap_lookup. intros Hp Hp' Hpath.
  apply lastBinding_elem in Hp, Hp'.
  set (l := withPrefix prefix (columnBindings (TStruct fields) addr)) in *.
  assert (Hnd : NoDup ((ptr_path ∘ snd) <$> l)).
  { rewrite list_fmap_compose. subst l. rewrite withPrefix_pointers.
    apply columnBindings_paths_NoDup. }
  pose proof (NoDup_fmap_elem (ptr_path ∘ snd) l (c, p) (c', p') Hnd Hp Hp' Hpath).
  by simplify_eq.
Qed.

(* ===================================================================== *)
(** * What a scan writes                                                  *)
(* ===================================================================== *)

Lemma map_lookup {A B} (f : A -> B) (l : list A) (i : nat) :
  map f l !! i = f <$> l !! i.
Proof.
  revert i. induction l as [| a l IH]; intros [| i]; cbn; first [done | apply IH].
Qed.

(** A settable leaf of a record shape is a leaf of its zero value, and
    holds the zero of its kind. *)
Lemma load_zeroValue :
  forall rel t k, fieldAt rel t = Some k -> load rel (zeroValue t) = Some (zeroLeaf k).
Proof.
  induction rel as [| i rel IH]; intros [k' | fields] k Hat; try done.
  - cbn in *. by simplify_eq.
  - cbn in Hat. destruct (fields !! i) as [[f ft] |] eqn:Hi; [| done].
    destruct (CanSet f); [| done].
    cbn [zeroValue load]. rewrite map_lookup, Hi. cbn. by apply IH.
Qed.

Lemma load_store_eq :
  forall path item x,
    is_Some (load path item) -> load path (store path x item) = Some x.
Proof.
  induction path as [| i rest IH]; intros [y | fs] x [z Hz]; try done.
  cbn in Hz. cbn [store].
  destruct (fs !! i) as [v |] eqn:Hi; [| done]. cbn in Hz.
  cbn [load]. rewrite list_lookup_insert_eq by (by eapply lookup_lt_Some).
  cbn. apply IH. by eexists.
Qed.

Lemma load_store_ne :
  forall path other item x,
    is_Some (load path item) -> is_Some (load other item) -> path ≠ other ->
    load other (store path x item) = load other item.
Proof.
  induction path as [| i rest IH]; intros other [y | fs] x [z Hz] [z' Hz'] Hne;
    try done.
  - by destruct other.
  - destruct other as [| j other']; [done |].
    cbn in Hz, Hz'. cbn [store].
    destruct (fs !! i) as [v |] eqn:Hi; [| done]. cbn in Hz.
    cbn [load].
    destruct (decide (i = j)) as [<- | Hij].
    + rewrite list_lookup_insert_eq by (by eapply lookup_lt_Some).
      rewrite Hi in Hz' |- *. cbn in *.
      apply IH; [by eexists | by eexists | congruence].
    + by rewrite list_lookup_insert_ne.
Qed.

Lemma elem_of_writtenPaths fm cs path :
  path ∈ writtenPaths fm cs
  <-> exists c p, c ∈ cs /\ fm !! c = Some p /\ ptr_path p = path.
Proof.
  unfold writtenPaths. rewrite list_elem_of_omap. split.
  - intros (c & Hc & Hp). destruct (fm !! c) as [p |] eqn:Hfm; [| done].
    cbn in Hp. simplify_eq. by exists c, p.
  - intros (c & p & Hc & Hfm & <-). exists c. by rewrite Hfm.
Qed.

Lemma writtenPaths_cons fm c cs :
  writtenPaths fm (c :: cs)
  = match fm !! c with
    | Some p => ptr_path p :: writtenPaths fm cs
    | None => writtenPaths fm cs
    end.
Proof. unfold writtenPaths. cbn. by destruct (fm !! c). Qed.

Section ScanWrites.

Variable convertAssign : Kind -> DbValue -> result GoLeaf.

(** A scan that succeeds: every bound pointer stays a leaf; a leaf no
    bound column points to is left as it was; and a bound column that no
    later column overwrites leaves its converted value in its field. *)
Lemma scanColumns_writes cols fm :
  forall cs vs i0 item item',
    (forall c p, fm !! c = Some p -> is_Some (load (ptr_path p) item)) ->
    scanColumns convertAssign cols i0 (scanDestOf fm cs) vs item = (item', None) ->
    length vs = length cs ->
    (forall c p, fm !! c = Some p -> is_Some (load (ptr_path p) item'))
    /\ (forall q, is_Some (load q item) -> q ∉ writtenPaths fm cs ->
                  load q item' = load q item)
    /\ (forall n c v p,
          cs !! n = Some c -> vs !! n = Some v -> fm !! c = Some p ->
          ptr_path p ∉ writtenPaths fm (drop (S n) cs) ->
          exists x, convertAssignTo convertAssign (ptr_kind p) v = Ok x
                    /\ load (ptr_path p) item' = Some x).
Proof.
  induction cs as [| c cs IH]; intros [| v vs] i0 item item' Hvalid Hscan Hlen;
    try done.
  - cbn in Hscan. simplify_eq. split; [done |]. split; [done |].
    by intros n c v p Hn.
  - cbn [scanDestOf map scanColumns] in Hscan. cbn in Hlen.
    injection Hlen as Hlen.
    destruct (fm !! c) as [p0 |] eqn:Hc.
    + destruct (convertAssignTo convertAssign (ptr_kind p0) v) as [x | e] eqn:Hconv;
        [| done].
      assert (Hvalid1 : forall c' p, fm !! c' = Some p ->
                is_Some (load (ptr_path p) (store (ptr_path p0) x item))).
      { intros c' p Hp. destruct (decide (ptr_path p0 = ptr_path p)) as [<- | Hne].
        - rewrite load_store_eq; [by eexists | by eapply Hvalid].
        - rewrite load_store_ne; [by eapply Hvalid | by eapply Hvalid
                                  | by eapply Hvalid | done]. }
      destruct (IH vs (S i0) _ item' Hvalid1 Hscan Hlen) as (Hv & Hframe & Hstored).
      split; [done |]. split.
      * intros q Hq Hnot. rewrite writtenPaths_cons, Hc in Hnot.
        apply not_elem_of_cons in Hnot as [Hne Hnot].
        assert (Hq1 : load q (store (ptr_path p0) x item) = load q item).
        { apply load_store_ne; [by eapply Hvalid | done | done]. }
        rewrite <- Hq1. apply Hframe; [by rewrite Hq1 | done].
      * intros [| n] c' v' p Hn Hvn Hp Hlater.
        -- cbn in Hn, Hvn. simplify_eq. cbn [drop] in Hlater.
           exists x. split; [done |].
           rewrite (Hframe (ptr_path p0)); [| | done].
           ++ apply load_store_eq. by eapply Hvalid.
           ++ rewrite load_store_eq; [by eexists | by eapply Hvalid].
        -- cbn in Hn, Hvn. by eapply Hstored.
    + destruct (IH vs (S i0) item item' Hvalid Hscan Hlen) as (Hv & Hframe & Hstored).
      split; [done |]. split.
      * intros q Hq Hnot. apply Hframe; [done |].
        by rewrite writtenPaths_cons, Hc in Hnot.
      * intros [| n] c' v' p Hn Hvn Hp Hlater.
        -- cbn in Hn. simplify_eq.
        -- cbn in Hn, Hvn. by eapply Hstored.
Qed.

(** Every pointer of the field map of a record shape is a leaf of the
    zero item. *)
Lemma bindings_valid_in_zero fields c p :
  bindingsMap (columnBindings (TStruct fields) []) !! c = Some p ->
  fieldAt (ptr_path p) (TStruct fields) = Some (ptr_kind p).
Proof.
  rewrite bindingsMap_lookup. intros Hp. apply lastBinding_elem in Hp.
  destruct (proj1 (columnBindings_pointers (TStruct fields) [] p)
              (ex_intro _ c Hp)) as (rel & Hpath & Hat).
  by rewrite Hpath.
Qed.

Lemma scanRow_writes fields columns row item :
  length row = length columns ->
  scanRow convertAssign (TStruct fields) columns row = Return (item, None) ->
  let fm := bindingsMap (columnBindings (TStruct fields) []) in
  (forall q, is_Some (load q (zeroValue (TStruct fields))) ->
             q ∉ writtenPaths fm columns ->
             load q item = load q (zeroValue (TStruct fields)))
  /\ (forall n c v p,
        columns !! n = Some c -> row !! n = Some v -> fm !! c = Some p ->
        ptr_path p ∉ writtenPaths fm (drop (S n) columns) ->
        exists x, convertAssignTo convertAssign (ptr_kind p) v = Ok x
                  /\ load (ptr_path p) item = Some x).
Proof.
  intros Hlen Hrun fm. rewrite scanRow_struct in Hrun.
  injection Hrun as Hrun. unfold rowsScan in Hrun.
  rewrite decide_True in Hrun by (by rewrite scanDestOf_length).
  destruct (scanColumns_writes columns fm columns row 0
              (zeroValue (TStruct fields)) item) as (_ & Hframe & Hstored);
    [| exact Hrun | exact Hlen | by split].
  intros c p Hp. apply bindings_valid_in_zero in Hp.
  rewrite (load_zeroValue _ _ _ Hp). by eexists.
Qed.

End ScanWrites.

Lemma bindings_paths_injective (l : list (string * FieldPtr)) c c' p p' :
  NoDup (ptr_path <$> l.*2) ->
  lastBinding c l = Some p -> lastBinding c' l = Some p' ->
  ptr_path p = ptr_path p' -> c = c' /\ p = p'.
Proof.
  intros Hnd Hp Hp' Hpath. apply lastBinding_elem in Hp, Hp'.
  rewrite <- list_fmap_compose in Hnd.
  pose proof (NoDup_fmap_elem (ptr_path ∘ snd) l (c, p) (c', p') Hnd Hp Hp' Hpath).
  by simplify_eq.
Qed.

Lemma createFieldMap_top_inv fields columns fieldMap :
  createFieldMap (TStruct fields) [] columns "" = Return (fieldMap, None) ->
  fieldMap = bindingsMap (columnBindings (TStruct fields) []).
Proof. rewrite createFieldMap_top. intros ?. by simplify_eq. Qed.

(** X11. What a successful scan stores. If the scan of a row succeeds, a
    column that is bound to a field, and whose name no later column of the
    cursor repeats, leaves in that field the value the database layer
    converted for the kind of the field. (Of columns of one name the last
    one stands.) *)
Theorem scan_stores_bound_columns
    (convertAssign : Kind -> DbValue -> result GoLeaf)
    (fields : list (StructField * GoType)) (columns : list string)
    (row : list DbValue) (item : Value) (fieldMap : gmap string FieldPtr)
    (n : nat) (c : string) (v : DbValue) (p : FieldPtr) :
  length row = length columns ->
  scanRow convertAssign (TStruct fields) columns row = Return (item, None) ->
  createFieldMap (TStruct fields) [] columns "" = Return (fieldMap, None) ->
  columns !! n = Some c ->
  row !! n = Some v ->
  fieldMap !! c = Some p ->
  c ∉ drop (S n) columns ->
  exists x, convertAssignTo convertAssign (ptr_kind p) v = Ok x
            /\ load (ptr_path p) item = Some x.
Proof.
  intros Hlen Hrun Hmap Hn Hv Hp Hlast.
  apply createFieldMap_top_inv in Hmap. subst fieldMap.
  destruct (scanRow_writes convertAssign fields columns row item Hlen Hrun)
    as [_ Hstored].
  apply (Hstored n c v p Hn Hv Hp).
  intros Hin. apply elem_of_writtenPaths in Hin as (c' & p' & Hc' & Hp' & Hpath).
  rewrite bindingsMap_lookup in Hp, Hp'.
  destruct (bindings_paths_injective _ c' c p' p
              (columnBindings_paths_NoDup (TStruct fields) []) Hp' Hp Hpath)
    as [-> _].
  by apply Hlast.
Qed.

(** The column [name] of the row is stored in the field [Name]. *)
Lemma scan_stores_bound_columns_witness :
  exists x,
    convertAssignTo Samples.convertAssignStd KString (DString "a") = Ok x
    /\ load [1] (VStruct [VBasic (LInt 1); VBasic (LString "a")]) = Some x.
Proof.
  exact (scan_stores_bound_columns Samples.convertAssignStd
           [ field "ID" "id" (TBasic KInt); field "Name" "name" (TBasic KString) ]
           ["name"; "legacy"; "id"] [DString "a"; DString "x"; DInt 1]
           (VStruct [VBasic (LInt 1); VBasic (LString "a")])
           (bindingsMap (columnBindings Samples.User []))
           0 "name" (DString "a") (mkPtr [1] KString)
           eq_refl eq_refl eq_refl eq_refl eq_refl eq_refl
           ltac:(vm_compute; intros Hin;
                 repeat (apply elem_of_cons in Hin as [Hin | Hin]; [discriminate |]);
                 by apply elem_of_nil in Hin)).
Defined.

(** X12. What a successful scan leaves alone. If the scan of a row
    succeeds, every field of the item that no column of the cursor is bound
    to holds what the zero item holds. *)
Theorem scan_leaves_other_fields_zero
    (convertAssign : Kind -> DbValue -> result GoLeaf)
    (fields : list (StructField * GoType)) (columns : list string)
    (row : list DbValue) (item : Value) (fieldMap : gmap string FieldPtr)
    (q : list nat) :
  length row = length columns ->
  scanRow convertAssign (TStruct fields) columns row = Return (item, None) ->
  createFieldMap (TStruct fields) [] columns "" = Return (fieldMap, None) ->
  is_Some (load q (zeroValue (TStruct fields))) ->
  (forall c p, c ∈ columns -> fieldMap !! c = Some p -> ptr_path p ≠ q) ->
  load q item = load q (zeroValue (TStruct fields)).
Proof.
  intros Hlen Hrun Hmap Hq Hfree.
  apply createFieldMap_top_inv in Hmap. subst fieldMap.
  destruct (scanRow_writes convertAssign fields columns row item Hlen Hrun)
    as [Hframe _].
  apply Hframe; [done |].
  intros Hin. apply elem_of_writtenPaths in Hin as (c & p & Hc & Hp & Hpath).
  by apply (Hfree c p Hc Hp).
Qed.

(** The cursor has no column for [Name]: it stays empty. *)
Lemma scan_leaves_other_fields_zero_witness :
  load [1] (VStruct [VBasic (LInt 1); VBasic (LString "")])
  = load [1] (zeroValue Samples.User).
Proof.
  refine (scan_leaves_other_fields_zero Samples.convertAssignStd
            [ field "ID" "id" (TBasic KInt); field "Name" "name" (TBasic KString) ]
            ["id"; "legacy"] [DInt 1; DString "x"]
            (VStruct [VBasic (LInt 1); VBasic (LString "")])
            (bindingsMap (columnBindings Samples.User []))
            [1] eq_refl eq_refl eq_refl (ex_intro _ (LString "") eq_refl) _).
  intros c p Hc Hp.
  apply elem_of_cons in Hc as [-> | Hc].
  - vm_compute in Hp. by simplify_eq.
  - apply elem_of_cons in Hc as [-> | Hc]; [by vm_compute in Hp |].
    by apply elem_of_nil in Hc.
Defined.

(** X13. Fields that are not settable are never written. If the scan of
    a row succeeds, every leaf of the item that is not reached through
    settable fields only (an unexported field, or a field below one) holds
    what the zero item holds, whatever columns and values the row has. *)
Theorem scan_never_writes_unexported_fields
    (convertAssign : Kind -> DbValue -> result GoLeaf)
    (fields : list (StructField * GoType)) (columns : list string)
    (row : list DbValue) (item : Value) (q : list nat) :
  length row = length columns ->
  scanRow convertAssign (TStruct fields) columns row = Return (item, None) ->
  is_Some (load q (zeroValue (TStruct fields))) ->
  fieldAt q (TStruct fields) = None ->
  load q item = load q (zeroValue (TStruct fields)).
Proof.
  intros Hlen Hrun Hq Hhidden.
  destruct (scanRow_writes convertAssign fields columns row item Hlen Hrun)
    as [Hframe _].
  apply Hframe; [done |].
  intros Hin. apply elem_of_writtenPaths in Hin as (c & p & _ & Hp & Hpath).
  apply bindings_valid_in_zero in Hp. rewrite Hpath in Hp. by rewrite Hp in Hhidden.
Qed.

(** A column named like the tag of the unexported field [secret] does not
    reach it. *)
Lemma scan_never_writes_unexported_fields_witness :
  load [1] (VStruct [VBasic (LString "me"); VBasic (LString "")])
  = load [1] (zeroValue Samples.Base).
Proof.
  exact (scan_never_writes_unexported_fields Samples.convertAssignStd
           [ field "CreatedBy" "created_by" (TBasic KString);
             field "secret" "secret" (TBasic KString) ]
           ["created_by"; "secret"] [DString "me"; DString "x"]
           (VStruct [VBasic (LString "me"); VBasic (LString "")])
           [1] eq_refl eq_refl (ex_intro _ (LString "") eq_refl) eq_refl).
Defined.

Lemma qualify_inj prefix a b : qualify prefix a = qualify prefix b -> a = b.
Proof.
  unfold qualify. intros Heq. apply append_inj_l in Heq.
  by apply (append_inj_l "_") in Heq.
Qed.

Lemma lastBinding_qualifyAll prefix name l :
  lastBinding (qualify prefix name) (qualifyAll prefix l) = lastBinding name l.
Proof.
  induction l as [| [k p] rest IH]; [done |].
  change (qualifyAll prefix ((k, p) :: rest))
    with ((qualify prefix k, p) :: qualifyAll prefix rest).
  cbn [lastBinding]. rewrite IH.
  destruct (lastBinding name rest); [done |].
  destruct (decide (k = name)) as [-> | Hne].
  - by rewrite decide_True.
  - rewrite decide_False; [done |]. intros Heq. by apply qualify_inj in Heq.
Qed.

Lemma lastBinding_qualifyAll_key prefix key l p :
  lastBinding key (qualifyAll prefix l) = Some p ->
  exists name, key = qualify prefix name.
Proof.
  intros Hp. apply lastBinding_elem in Hp. unfold qualifyAll in Hp.
  apply list_elem_of_In, in_map_iff in Hp as ([name q] & Heq & _).
  cbn in Heq. simplify_eq. by exists name.
Qed.

(** X14. How a prefix composes. Under a prefix that is not empty the
    field map of a record shape is its top-level field map with every name
    put behind the prefix and [_]: a name binds under the prefix what it
    binds at the top level, and nothing else is bound. This is what lets
    a nested record be mapped by a recursive call. *)
Theorem createFieldMap_under_prefix (fields : list (StructField * GoType))
    (addr : list nat) (columns : list string) (prefix : string) :
  prefix ≠ "" ->
  exists top nested,
    createFieldMap (TStruct fields) addr columns "" = Return (top, None)
    /\ createFieldMap (TStruct fields) addr columns prefix = Return (nested, None)
    /\ (forall name, nested !! (prefix +:+ "_" +:+ name) = top !! name)
    /\ (forall key, is_Some (nested !! key) ->
                    exists name, key = prefix +:+ "_" +:+ name).
Proof.
  intros Hprefix.
  exists (bindingsMap (columnBindings (TStruct fields) addr)),
         (bindingsMap (qualifyAll prefix (columnBindings (TStruct fields) addr))).
  split.
  { pose proof (createFieldMap_bindings columns (TStruct fields) addr "") as H.
    cbn beta iota in H. rewrite H. unfold withPrefix. by destruct (decide ("" = "")). }
  split.
  { pose proof (createFieldMap_bindings columns (TStruct fields) addr prefix) as H.
    cbn beta iota in H. rewrite H. unfold withPrefix.
    by destruct (decide (prefix = "")). }
  split.
  - intros name. rewrite !bindingsMap_lookup. apply lastBinding_qualifyAll.
  - intros key [p Hp]. rewrite bindingsMap_lookup in Hp.
    by apply lastBinding_qualifyAll_key in Hp.
Qed.

(** The README's [Address] under the prefix [home]. *)
Lemma createFieldMap_under_prefix_witness :
  exists top nested,
    createFieldMap Samples.Address [2] [] "" = Return (top, None)
    /\ createFieldMap Samples.Address [2] [] "home" = Return (nested, None)
    /\ nested !! "home_city" = top !! "city".
Proof.
  destruct (createFieldMap_under_prefix
              [ field "Street" "street" (TBasic KString);
                field "City" "city" (TBasic KString);
                field "State" "state" (TBasic KString) ]
              [2] [] "home" ltac:(discriminate))
    as (top & nested & Htop & Hnested & Hlookup & _).
  exists top, nested. split; [exact Htop |]. split; [exact Hnested |].
  exact (Hlookup "city").
Defined.

(** X15. A scope function that panics. If the handle is begun and the
    scope function panics, [ExecuteInTransaction] calls [Rollback] on the
    handle, once, in the state the scope function left, never calls
    [Commit], and the panic leaves [ExecuteInTransaction] with its
    message. *)
Theorem scope_panic_rolls_back {W T : Type} (zero : T) (ctx : Context)
    (db : IDbConnection W) (tsf : TransactionScopeFunction W T)
    (opts : list TxOptions) (w w1 w2 : W) (tx : Tx W) (msg : string) :
  BeginTx db ctx (head opts) w = (Ok tx, w1) ->
  tsf ctx tx w1 = (Panic msg, w2) ->
  ExecuteInTransaction zero ctx db tsf opts w
  = (Panic msg, (Rollback tx w2).2,
     [EvBeginTx; EvScopeFn (tx_id tx); EvRollback (tx_id tx)]).
Proof.
  intros Hbegin Hscope. by rewrite ExecuteInTransaction_unfold, Hbegin, Hscope.
Qed.

(** The write made before the panic is gone. *)
Lemma scope_panic_rolls_back_witness :
  ExecuteInTransaction 0 0 TxSamples.goodDb TxSamples.crash [] TxSamples.emptyDb
  = (Panic "index out of range",
     (Rollback TxSamples.goodTx (TxSamples.write "debit" TxSamples.emptyDb)).2,
     [EvBeginTx; EvScopeFn 7; EvRollback 7])
  /\ (Rollback TxSamples.goodTx (TxSamples.write "debit" TxSamples.emptyDb)).2
     = TxSamples.mkDb [] [] true.
Proof.
  split; [| reflexivity].
  exact (scope_panic_rolls_back 0 0 TxSamples.goodDb TxSamples.crash []
           TxSamples.emptyDb TxSamples.emptyDb
           (TxSamples.write "debit" TxSamples.emptyDb)
           TxSamples.goodTx "index out of range" eq_refl eq_refl).
Defined.
